(** * logging: a shallow embedding of [logging/logger.go]

  The package builds a zap logger from two environment variables, keeps a
  process-wide default logger behind a [sync.Once], and binds loggers to
  [context.Context] values under a private key.

  Go strings are byte strings ([string], one [ascii] per byte); Go
  pointers to [zap.SugaredLogger] are addresses into a heap of allocated
  loggers; functions that read or write package state are written in a
  state-and-panic monad over [World]. *)

From Stdlib Require Import ZArith NArith Strings.String Strings.Ascii List Bool Lia.
From stdpp Require Import base option list gmap strings.

(** ** Bytes and the ASCII fast paths of package [strings] *)

Module Bytes.

(** [utf8.RuneSelf]: bytes below it are single-byte runes. *)
Definition RuneSelf : N := 128.

Definition isASCIIByte (c : ascii) : bool := (N_of_ascii c <? RuneSelf)%N.

(** ['A' <= c && c <= 'Z'] *)
Definition isUpperByte (c : ascii) : bool :=
  (("A" <=? c) && (c <=? "Z"))%char.

(** ['a' <= c && c <= 'z'] *)
Definition isLowerByte (c : ascii) : bool :=
  (("a" <=? c) && (c <=? "z"))%char.

(** [c += 'a' - 'A'] when [c] is an upper-case ASCII letter. *)
Definition lowerByte (c : ascii) : ascii :=
  if isUpperByte c then ascii_of_N (N_of_ascii c + 32) else c.

(** The inverse shift, used to describe case variants. *)
Definition upperByte (c : ascii) : ascii :=
  if isLowerByte c then ascii_of_N (N_of_ascii c - 32) else c.

(** [strings.asciiSpace]: the table
    [{'\t': 1, '\n': 1, '\v': 1, '\f': 1, '\r': 1, ' ': 1}]. *)
Definition asciiSpace (c : ascii) : bool :=
  let n := N_of_ascii c in
  ((n =? 9) || (n =? 10) || (n =? 11) || (n =? 12) || (n =? 13) || (n =? 32))%N.

Fixpoint all (p : ascii -> bool) (s : string) : bool :=
  match s with
  | EmptyString => true
  | String c s' => p c && all p s'
  end.

Fixpoint any (p : ascii -> bool) (s : string) : bool :=
  match s with
  | EmptyString => false
  | String c s' => p c || any p s'
  end.

Fixpoint map (f : ascii -> ascii) (s : string) : string :=
  match s with
  | EmptyString => EmptyString
  | String c s' => String (f c) (map f s')
  end.

End Bytes.

(** ** Package [zapcore]: levels *)

Module zapcore.

Inductive Level : Set :=
| DebugLevel | InfoLevel | WarnLevel | ErrorLevel
| DPanicLevel | PanicLevel | FatalLevel.

(** The [int8] value of each constant ([DebugLevel = -1], then [iota]). *)
Definition to_Z (l : Level) : Z :=
  match l with
  | DebugLevel => -1 | InfoLevel => 0 | WarnLevel => 1 | ErrorLevel => 2
  | DPanicLevel => 3 | PanicLevel => 4 | FatalLevel => 5
  end.

(** [func (l Level) Enabled(lvl Level) bool { return lvl >= l }] *)
Definition Enabled (l lvl : Level) : bool := (to_Z l <=? to_Z lvl)%Z.

#[global] Instance Level_eq_dec : EqDecision Level.
Proof. solve_decision. Defined.

End zapcore.
Import zapcore.

(** ** Package [zap]: configurations and loggers *)

Module zap.

(** The fields of [zap.Config] on which the two presets differ and that
    [NewLogger] sets; [Level] is the level held by the [AtomicLevel]. *)
Record Config : Set := mkConfig {
  Level : zapcore.Level;
  Development : bool;
  Encoding : string
}.

Definition NewProductionConfig : Config :=
  {| Level := InfoLevel; Development := false; Encoding := "json" |}.

Definition NewDevelopmentConfig : Config :=
  {| Level := DebugLevel; Development := true; Encoding := "console" |}.

(** [config.Level = zap.NewAtomicLevelAt(l)] *)
Definition withLevel (l : zapcore.Level) (c : Config) : Config :=
  {| Level := l; Development := Development c; Encoding := Encoding c |}.

(** A logger's core: the one [Build] makes from a configuration, or
    [zapcore.NewNopCore()]. *)
Inductive Core : Set :=
| ioCore (encoding : string) (enab : zapcore.Level)
| nopCore.

Record Logger : Set := mkLogger {
  core : Core;
  development : bool
}.

(** [zap.NewNop()] *)
Definition NewNop : Logger := {| core := nopCore; development := false |}.

Record SugaredLogger : Set := mkSugared { base : Logger }.

(** [func (log *Logger) Sugar() *SugaredLogger] builds the wrapper value;
    its allocation is [alloc] below. *)
Definition Sugar (l : Logger) : SugaredLogger := {| base := l |}.

(** [core.Enabled(lvl)]: [nopCore] enables nothing, an [ioCore] what its
    level enables. *)
Definition CoreEnabled (c : Core) (lvl : zapcore.Level) : bool :=
  match c with
  | ioCore _ l => zapcore.Enabled l lvl
  | nopCore => false
  end.

Definition Emits (s : SugaredLogger) (lvl : zapcore.Level) : bool :=
  CoreEnabled (core (base s)) lvl.

(** What [config.Build()] returns when the engine accepts [c]. *)
Definition built (c : Config) : Logger :=
  {| core := ioCore (Encoding c) (Level c); development := Development c |}.

End zap.

(** ** What the package takes from outside the repository

    The Unicode slow paths of package [strings], reached only on strings
    with a byte [>= utf8.RuneSelf], and the verdict of the logging engine
    on a configuration.  Everything below is stated for an arbitrary
    [Runtime]. *)
Class Runtime : Type := {
  (** [strings.Map(unicode.ToLower, s)] *)
  mapUnicodeToLower : string -> string;
  (** [strings.TrimFunc(s, unicode.IsSpace)] *)
  trimFuncIsSpace : string -> string;
  (** [strings.TrimRightFunc(s, unicode.IsSpace)] *)
  trimRightFuncIsSpace : string -> string;
  (** the error, if any, with which [config.Build()] rejects a
      configuration *)
  buildError : zap.Config -> option string
}.

(** ** Package [strings]: [ToLower] and [TrimSpace]

  Both functions have a byte loop for ASCII input and hand the rest to
  the Unicode tables.  The byte loops are embedded as written; the
  Unicode slow paths are those of the [Runtime]. *)

Section GoStrings.

Context `{Runtime}.

(** [strings.ToLower]: the first loop computes [isASCII] and [hasUpper];
    an ASCII string without upper-case letters is returned as it is, an
    ASCII string with some has each of them shifted by ['a' - 'A'], any
    other string goes through the Unicode mapping. *)
Definition ToLower (s : string) : string :=
  if Bytes.all Bytes.isASCIIByte s then
    if Bytes.any Bytes.isUpperByte s then Bytes.map Bytes.lowerByte s else s
  else mapUnicodeToLower s.

(** Second loop of [strings.TrimSpace], [for ; stop > start; stop--],
    run on the reversal [r] of [s[start:stop]] so that [s[stop-1]] is the
    head of [r]. *)
Fixpoint trimStop (r : string) : string :=
  match r with
  | EmptyString => EmptyString
  | String c r' =>
      if negb (Bytes.isASCIIByte c) then trimRightFuncIsSpace (String.rev r)
      else if Bytes.asciiSpace c then trimStop r'
      else String.rev r
  end.

(** [strings.TrimSpace]: the first loop, [for ; start < len(s); start++],
    on the suffix [s[start:]]. *)
Fixpoint TrimSpace (s : string) : string :=
  match s with
  | EmptyString => trimStop EmptyString
  | String c s' =>
      if negb (Bytes.isASCIIByte c) then trimFuncIsSpace s
      else if Bytes.asciiSpace c then TrimSpace s'
      else trimStop (String.rev s)
  end.

End GoStrings.

Section Levels.

Context `{Runtime}.

(** [stringToZapLevel]: [switch strings.ToLower(level)]. *)
Definition stringToZapLevel (level : string) : Level :=
  let l := ToLower level in
  if String.eqb l "debug" then DebugLevel
  else if String.eqb l "info" then InfoLevel
  else if String.eqb l "warn" then WarnLevel
  else if String.eqb l "error" then ErrorLevel
  else if String.eqb l "dpanic" then DPanicLevel
  else if String.eqb l "panic" then PanicLevel
  else if String.eqb l "fatal" then FatalLevel
  else InfoLevel.

End Levels.

(** ** Pointers, interface values and package state *)

(** A [*zap.SugaredLogger]: [NilPtr] or the address of an allocated logger. *)
Inductive Ptr : Set :=
| NilPtr
| Addr (a : nat).

#[global] Instance Ptr_eq_dec : EqDecision Ptr.
Proof. solve_decision. Defined.

(** The world a call runs in: the allocated [SugaredLogger]s (an address is
    an index into [heap]), the process environment, and the two package
    variables [defaultLogger] and [defaultLoggerOnce] (the [done] flag of
    the [sync.Once]). *)
Record World : Type := mkWorld {
  heap : list zap.SugaredLogger;
  environ : gmap string string;
  defaultLogger : Ptr;
  defaultLoggerOnce : bool
}.

(** The world at process start. *)
Definition initWorld (env : gmap string string) : World :=
  {| heap := []; environ := env; defaultLogger := NilPtr;
     defaultLoggerOnce := false |}.

(** What is at the end of a pointer. *)
Definition deref (w : World) (p : Ptr) : option zap.SugaredLogger :=
  match p with
  | NilPtr => None
  | Addr a => heap w !! a
  end.

(** ** Calls: state passing with panics *)

Inductive outcome (A : Type) : Type :=
| Returns (a : A)
| Panics (msg : string).
Arguments Returns {A} a.
Arguments Panics {A} msg.

Definition M (A : Type) : Type := World -> outcome (A * World).

#[global] Instance M_ret : MRet M :=
  fun A (a : A) w => Returns (a, w).

#[global] Instance M_bind : MBind M :=
  fun A B (k : A -> M B) (m : M A) w =>
    match m w with
    | Returns (a, w') => k a w'
    | Panics msg => Panics msg
    end.

Definition panic {A} (msg : string) : M A := fun _ => Panics msg.

(** A pure call that may panic, run inside [M]. *)
Definition lift {A} (o : outcome A) : M A :=
  fun w =>
    match o with
    | Returns a => Returns (a, w)
    | Panics msg => Panics msg
    end.

(** [os.Getenv]: the value of the variable, empty when it is not set. *)
Definition Getenv (key : string) : M string :=
  fun w => Returns (default "" (environ w !! key), w).

(** [os.Setenv], an operation of the host program on the same world. *)
Definition Setenv (key value : string) : M unit :=
  fun w =>
    Returns (tt, {| heap := heap w; environ := <[key := value]> (environ w);
                    defaultLogger := defaultLogger w;
                    defaultLoggerOnce := defaultLoggerOnce w |}).

(** The world after one allocation. *)
Definition allocated (s : zap.SugaredLogger) (w : World) : World :=
  {| heap := heap w ++ [s]; environ := environ w;
     defaultLogger := defaultLogger w;
     defaultLoggerOnce := defaultLoggerOnce w |}.

(** Allocation of a [SugaredLogger]: a fresh address. *)
Definition alloc (s : zap.SugaredLogger) : M Ptr :=
  fun w => Returns (Addr (length (heap w)), allocated s w).

(** The world after the store [defaultLogger = p]. *)
Definition withDefaultLogger (p : Ptr) (w : World) : World :=
  {| heap := heap w; environ := environ w; defaultLogger := p;
     defaultLoggerOnce := defaultLoggerOnce w |}.

(** The world after [o.done.Store(1)]. *)
Definition withDone (w : World) : World :=
  {| heap := heap w; environ := environ w;
     defaultLogger := defaultLogger w; defaultLoggerOnce := true |}.

(** [defaultLogger = p] *)
Definition storeDefaultLogger (p : Ptr) : M unit :=
  fun w => Returns (tt, withDefaultLogger p w).

(** [return defaultLogger] *)
Definition loadDefaultLogger : M Ptr :=
  fun w => Returns (defaultLogger w, w).

(** [defaultLoggerOnce.Do(f)] for one caller at a time: [f] runs only
    while the [done] flag is clear, and the flag is set when [f] has
    returned; a panic of [f] leaves [Do] as a panic.  The steps of [Do]
    under concurrent callers are in [stepGoroutine] below. *)
Definition Once_Do (f : M unit) : M unit :=
  fun w =>
    if defaultLoggerOnce w then Returns (tt, w)
    else
      match f w with
      | Returns (_, w') => Returns (tt, withDone w')
      | Panics msg => Panics msg
      end.

(** ** Package [context] *)

(** The dynamic type of a string-kinded interface value: the builtin
    [string], this package's [contextKey], or a defined string type of
    another package (numbered). *)
Inductive strType : Set :=
| builtinString
| contextKey
| foreignString (id : nat).

#[global] Instance strType_eq_dec : EqDecision strType.
Proof. solve_decision. Defined.

(** Values of type [any]: a dynamic type with its value. [AnyNil] is the
    nil interface; [AnySugaredLogger NilPtr] is a typed nil pointer, which
    is not the nil interface. *)
Inductive any : Set :=
| AnyNil
| AnyStr (t : strType) (s : string)
| AnyInt (z : Z)
| AnySugaredLogger (p : Ptr)
| AnyLogger (a : nat)
| AnyFunc (id : nat).

#[global] Instance any_eq_dec : EqDecision any.
Proof. solve_decision. Defined.

(** [reflectlite.TypeOf(key).Comparable()] *)
Definition comparable (v : any) : bool :=
  match v with
  | AnyFunc _ => false
  | _ => true
  end.

(** Non-nil implementations of [context.Context]: the empty contexts
    ([Background], [TODO]), [valueCtx], the contexts of the cancel family
    (their [Value] passes a key of another package on to the parent), and
    any implementation from outside package [context], given by its
    [Value] method.  Such a method may panic instead of returning: an
    interface value that holds a nil pointer is not nil, and calling
    [Value] on it dereferences the pointer. *)
Inductive ctxImpl : Type :=
| emptyCtx
| valueCtx (parent : ctxImpl) (key val : any)
| cancelCtx (parent : ctxImpl)
| foreignCtx (value : any -> outcome any).

(** A [context.Context] interface value; [None] is nil. *)
Definition Context : Type := option ctxImpl.

(** [func (c *valueCtx) Value(key any) any] and the loop of
    [context.value]. *)
Fixpoint Value (c : ctxImpl) (key : any) : outcome any :=
  match c with
  | emptyCtx => Returns AnyNil
  | valueCtx parent k v =>
      if decide (k = key) then Returns v else Value parent key
  | cancelCtx parent => Value parent key
  | foreignCtx value => value key
  end.

(** The contexts made by package [context] alone, from [Background] or
    [TODO]. *)
Fixpoint standard (c : ctxImpl) : bool :=
  match c with
  | emptyCtx => true
  | valueCtx parent _ _ => standard parent
  | cancelCtx parent => standard parent
  | foreignCtx _ => false
  end.

(** [context.WithValue] *)
Definition WithValue (parent : Context) (key val : any) : outcome Context :=
  match parent with
  | None => Panics "cannot create context from nil parent"
  | Some p =>
      if decide (key = AnyNil) then Panics "nil key"
      else if negb (comparable key) then Panics "key is not comparable"
      else Returns (Some (valueCtx p key val))
  end.

(** ** Package [logging] *)

(** [const loggerKey = contextKey("logger")] *)
Definition loggerKey : any := AnyStr contextKey "logger".

(** [WithLogger] *)
Definition WithLogger (ctx : Context) (logger : Ptr) : outcome Context :=
  WithValue ctx loggerKey (AnySugaredLogger logger).

Section Logging.

Context `{Runtime}.

(** [config.Build()] *)
Definition Build (c : zap.Config) : zap.Logger + string :=
  match buildError c with
  | Some err => inr err
  | None => inl (zap.built c)
  end.

(** The configuration [NewLogger] hands to [Build]. *)
Definition resolveConfig (develop : bool) (level : string) : zap.Config :=
  let config :=
    if develop then zap.NewDevelopmentConfig else zap.NewProductionConfig in
  zap.withLevel (stringToZapLevel level) config.

(** [NewLogger] *)
Definition NewLogger (develop : bool) (level : string) : M Ptr :=
  let config := resolveConfig develop level in
  let logger :=
    match Build config with
    | inl logger => logger
    | inr _ => zap.NewNop
    end in
  alloc (zap.Sugar logger).

(** [strings.ToLower(strings.TrimSpace(mode)) == "develop"] *)
Definition developMode (mode : string) : bool :=
  String.eqb (ToLower (TrimSpace mode)) "develop".

(** [NewLoggerFromEnv] *)
Definition NewLoggerFromEnv : M Ptr :=
  mode ← Getenv "LOG_MODE";
  let develop := developMode mode in
  level ← Getenv "LOG_LEVEL";
  NewLogger develop level.

(** [DefaultLogger] *)
Definition DefaultLogger : M Ptr :=
  Once_Do (p ← NewLoggerFromEnv; storeDefaultLogger p);;
  loadDefaultLogger.

(** [FromContext]: calling [Value] on a nil interface panics, and a panic
    of the context's own [Value] goes through; the type assertion holds
    exactly for a value of dynamic type [*zap.SugaredLogger]. *)
Definition FromContext (ctx : Context) : M Ptr :=
  match ctx with
  | None => panic "invalid memory address or nil pointer dereference"
  | Some c =>
      match Value c loggerKey with
      | Returns (AnySugaredLogger logger) => mret logger
      | Returns _ => DefaultLogger
      | Panics msg => panic msg
      end
  end.

(** The logger [NewLogger] wraps: the built one, or the no-op logger when
    [Build] fails. *)
Definition loggerFor (develop : bool) (level : string) : zap.Logger :=
  match Build (resolveConfig develop level) with
  | inl logger => logger
  | inr _ => zap.NewNop
  end.

(** The world after the first [DefaultLogger] call has published [p]. *)
Definition published (p : Ptr) (w : World) : World :=
  withDone (withDefaultLogger p w).

(** Once published, the default logger is an allocated logger. *)
Definition consistent (w : World) : Prop :=
  defaultLoggerOnce w = true ->
  exists a s, defaultLogger w = Addr a /\ heap w !! a = Some s.

(** ** Programs over the package

    A host program is a sequence of calls; [exec] runs one of them. *)
Inductive Call : Type :=
| CallNewLogger (develop : bool) (level : string)
| CallNewLoggerFromEnv
| CallDefaultLogger
| CallFromContext (ctx : Context)
| CallSetenv (key value : string).

Definition exec (c : Call) : M Ptr :=
  match c with
  | CallNewLogger develop level => NewLogger develop level
  | CallNewLoggerFromEnv => NewLoggerFromEnv
  | CallDefaultLogger => DefaultLogger
  | CallFromContext ctx => FromContext ctx
  | CallSetenv key value => Setenv key value;; mret NilPtr
  end.

(** The calls of a program that are themselves constructors. *)
Definition isConstructor (c : Call) : bool :=
  match c with
  | CallNewLogger _ _ | CallNewLoggerFromEnv => true
  | _ => false
  end.

(** How many loggers the constructor calls of a program have built. *)
Definition constructions (cs : list Call) : nat :=
  length (filter (fun c => isConstructor c = true) cs).

(** [reaches env cs w]: the process started with environment [env] has made
    the calls [cs], in this order, each of which returned, and is in
    world [w]. *)
Inductive reaches (env : gmap string string) : list Call -> World -> Prop :=
| reaches_init : reaches env [] (initWorld env)
| reaches_step cs w c p w' :
    reaches env cs w -> exec c w = Returns (p, w') ->
    reaches env (cs ++ [c]) w'.

(** [later w w']: [w'] is [w] or a world of the same run after further
    calls. *)
Inductive later (w : World) : World -> Prop :=
| later_refl : later w w
| later_step w1 c p w2 :
    later w w1 -> exec c w1 = Returns (p, w2) -> later w w2.

(** ** Concurrent callers of [DefaultLogger]

    Goroutines that call [DefaultLogger] at the same time interleave at
    the loads and stores of [sync.Once]:
[[
    func (o *Once) Do(f func()) {
        if o.done.Load() == 0 { o.doSlow(f) }
    }
    func (o *Once) doSlow(f func()) {
        o.m.Lock()
        defer o.m.Unlock()
        if o.done.Load() == 0 {
            defer o.done.Store(1)
            f()
        }
    }
]]
    The [done] flag is atomic and the mutex orders what it guards, so the
    loads and stores of the callers are taken one at a time, in any
    order.  A program point is where a goroutine is inside its call;
    [NewLoggerFromEnv()], which only reads the environment and allocates,
    is one step. *)
Inductive pc : Type :=
| AtDo                  (** [if o.done.Load() == 0] in [Do] *)
| AtLock                (** [o.m.Lock()] *)
| AtRecheck             (** [if o.done.Load() == 0] in [doSlow] *)
| AtNew                 (** [NewLoggerFromEnv()] in the function literal *)
| AtAssign (p : Ptr)    (** [defaultLogger = p] *)
| AtStoreDone           (** deferred [o.done.Store(1)] *)
| AtUnlock              (** deferred [o.m.Unlock()] *)
| AtReturn              (** [return defaultLogger] *)
| Returned (p : Ptr).   (** the call has returned [p] *)

(** The program points between [Lock] and [Unlock]. *)
Definition critical (p : pc) : bool :=
  match p with
  | AtRecheck | AtNew | AtAssign _ | AtStoreDone | AtUnlock => true
  | _ => false
  end.

(** A process: the shared world, the mutex of the [Once], where each
    goroutine is, and how many times the function literal passed to [Do]
    has been entered (a count kept for the statements; no step reads
    it). *)
Record Process : Type := mkProcess {
  world : World;
  mutex : bool;
  goroutines : list pc;
  onceRuns : nat
}.

(** The process at start, with [n] goroutines about to call
    [DefaultLogger]. *)
Definition startProcess (env : gmap string string) (n : nat) : Process :=
  {| world := initWorld env; mutex := false;
     goroutines := replicate n AtDo; onceRuns := 0 |}.

Definition goto (i : nat) (p : pc) (P : Process) : Process :=
  {| world := world P; mutex := mutex P;
     goroutines := <[i := p]> (goroutines P); onceRuns := onceRuns P |}.

Definition withWorld (w : World) (P : Process) : Process :=
  {| world := w; mutex := mutex P; goroutines := goroutines P;
     onceRuns := onceRuns P |}.

Definition withMutex (b : bool) (P : Process) : Process :=
  {| world := world P; mutex := b; goroutines := goroutines P;
     onceRuns := onceRuns P |}.

Definition entered (P : Process) : Process :=
  {| world := world P; mutex := mutex P; goroutines := goroutines P;
     onceRuns := S (onceRuns P) |}.

(** One step of goroutine [i]; [None] when it is blocked on the mutex, has
    returned, or does not exist. *)
Definition stepGoroutine (i : nat) (P : Process) : option Process :=
  match goroutines P !! i with
  | None => None
  | Some AtDo =>
      if defaultLoggerOnce (world P) then Some (goto i AtReturn P)
      else Some (goto i AtLock P)
  | Some AtLock =>
      if mutex P then None else Some (withMutex true (goto i AtRecheck P))
  | Some AtRecheck =>
      if defaultLoggerOnce (world P) then Some (goto i AtUnlock P)
      else Some (entered (goto i AtNew P))
  | Some AtNew =>
      match NewLoggerFromEnv (world P) with
      | Returns (p, w') => Some (withWorld w' (goto i (AtAssign p) P))
      | Panics _ => None
      end
  | Some (AtAssign p) =>
      Some (withWorld (withDefaultLogger p (world P)) (goto i AtStoreDone P))
  | Some AtStoreDone =>
      Some (withWorld (withDone (world P)) (goto i AtUnlock P))
  | Some AtUnlock => Some (withMutex false (goto i AtReturn P))
  | Some AtReturn =>
      Some (goto i (Returned (defaultLogger (world P))) P)
  | Some (Returned _) => None
  end.

(** The rest of the host program runs too: its constructor calls and its
    changes of the environment are steps of their own. *)
Definition isHostCall (c : Call) : bool :=
  match c with
  | CallNewLogger _ _ | CallNewLoggerFromEnv | CallSetenv _ _ => true
  | _ => false
  end.

Definition stepHost (c : Call) (P : Process) : option Process :=
  if isHostCall c then
    match exec c (world P) with
    | Returns (_, w') => Some (withWorld w' P)
    | Panics _ => None
    end
  else None.

Inductive event : Type :=
| Go (i : nat)
| Host (c : Call).

Definition stepEvent (e : event) (P : Process) : option Process :=
  match e with
  | Go i => stepGoroutine i P
  | Host c => stepHost c P
  end.

(** A schedule is the order in which steps are taken. *)
Fixpoint runSchedule (sched : list event) (P : Process) : option Process :=
  match sched with
  | [] => Some P
  | e :: sched' =>
      match stepEvent e P with
      | Some P' => runSchedule sched' P'
      | None => None
      end
  end.

(** What holds of a goroutine at each program point. *)
Definition pcOk (P : Process) (p : pc) : Prop :=
  let w := world P in
  match p with
  | AtDo | AtLock => True
  | AtRecheck => defaultLoggerOnce w = false -> onceRuns P = 0
  | AtNew => defaultLoggerOnce w = false /\ onceRuns P = 1
  | AtAssign q =>
      defaultLoggerOnce w = false /\ onceRuns P = 1 /\
      exists a s, q = Addr a /\ heap w !! a = Some s
  | AtStoreDone =>
      defaultLoggerOnce w = false /\ onceRuns P = 1 /\
      exists a s, defaultLogger w = Addr a /\ heap w !! a = Some s
  | AtUnlock | AtReturn => defaultLoggerOnce w = true
  | Returned q => defaultLoggerOnce w = true /\ q = defaultLogger w
  end.

(** The invariant of a process. *)
Record processInv (P : Process) : Prop := mkProcessInv {
  inv_pc : forall i p, goroutines P !! i = Some p -> pcOk P p;
  inv_exclusion : forall i j p q,
    goroutines P !! i = Some p -> goroutines P !! j = Some q ->
    critical p = true -> critical q = true -> i = j;
  inv_unlocked : mutex P = false ->
    forall i p, goroutines P !! i = Some p -> critical p = false;
  inv_locked : mutex P = true ->
    exists i p, goroutines P !! i = Some p /\ critical p = true;
  inv_done : defaultLoggerOnce (world P) = true ->
    onceRuns P = 1 /\
    exists a s, defaultLogger (world P) = Addr a /\
                heap (world P) !! a = Some s;
  inv_fresh : mutex P = false -> defaultLoggerOnce (world P) = false ->
    onceRuns P = 0
}.

(** The steps a goroutine at [p] still has to take, at most. *)
Definition remaining (p : pc) : nat :=
  match p with
  | AtDo => 8 | AtLock => 7 | AtRecheck => 6 | AtNew => 5 | AtAssign _ => 4
  | AtStoreDone => 3 | AtUnlock => 2 | AtReturn => 1 | Returned _ => 0
  end.

Definition work (P : Process) : nat :=
  sum_list (remaining <$> goroutines P).

Definition isReturned (p : pc) : bool :=
  match p with
  | Returned _ => true
  | _ => false
  end.

End Logging.

(** ** Derived contexts and case folding *)

(** [derived root c]: [c] is [root], or comes from it by [context.WithValue]
    under keys other than [loggerKey] and by contexts of the cancel
    family, in any number and order. *)
Inductive derived (root : ctxImpl) : ctxImpl -> Prop :=
| derived_refl : derived root root
| derived_value c k v :
    derived root c -> k <> loggerKey -> derived root (valueCtx c k v)
| derived_cancel c : derived root c -> derived root (cancelCtx c).

(** Two bytes that are the same up to the case of an ASCII letter. *)
Definition eqFoldByte (c d : ascii) : bool :=
  Ascii.eqb c d
  || (Bytes.isUpperByte c && Ascii.eqb (Bytes.lowerByte c) d)
  || (Bytes.isUpperByte d && Ascii.eqb (Bytes.lowerByte d) c).

(** Two strings of the same length that are bytewise the same up to
    case. *)
Fixpoint eqFold (s1 s2 : string) : bool :=
  match s1, s2 with
  | EmptyString, EmptyString => true
  | String c s1', String d s2' => eqFoldByte c d && eqFold s1' s2'
  | _, _ => false
  end.

(** The calls that write the process environment. *)
Definition isSetenv (c : Call) : bool :=
  match c with
  | CallSetenv _ _ => true
  | _ => false
  end.

(** ** Runtimes and worlds for examples *)

(** A runtime for ASCII input: the slow paths, never reached there, are
    the identity, and the engine accepts every configuration. *)
Definition asciiRuntime : Runtime :=
  {| mapUnicodeToLower := fun s => s;
     trimFuncIsSpace := fun s => s;
     trimRightFuncIsSpace := fun s => s;
     buildError := fun _ => None |}.

(** The same with an engine that rejects every configuration. *)
Definition failingRuntime : Runtime :=
  {| mapUnicodeToLower := fun s => s;
     trimFuncIsSpace := fun s => s;
     trimRightFuncIsSpace := fun s => s;
     buildError := fun _ => Some "open sink: permission denied" |}.

(** The environment of the specification's scenario: mode unset, level
    WARN. *)
Definition warnEnv : gmap string string := {[ "LOG_LEVEL" := "WARN" ]}.

(** The production logger at warn level. *)
Definition warnLogger : zap.SugaredLogger :=
  zap.Sugar (zap.built (zap.withLevel WarnLevel zap.NewProductionConfig)).

(** The world of that process after its first [DefaultLogger] call. *)
Definition warnWorld : World :=
  {| heap := [warnLogger]; environ := warnEnv;
     defaultLogger := Addr 0; defaultLoggerOnce := true |}.

(** A [context.Context] that holds a nil pointer: the interface value is
    not nil, and its [Value] method panics on every key. *)
Definition nilPointerCtx : ctxImpl :=
  foreignCtx
    (fun _ => Panics "invalid memory address or nil pointer dereference").

(** Two goroutines racing for the first call: both see the flag clear,
    the second wins the mutex and builds the logger, the first then finds
    the flag set under the mutex. *)
Definition racingSchedule : list event :=
  [Go 0; Go 1; Go 1; Go 1; Go 1; Go 1; Go 1; Go 1; Go 0; Go 0; Go 0; Go 0;
   Go 1].

Definition racedProcess : Process :=
  {| world := warnWorld; mutex := false;
     goroutines := [Returned (Addr 0); Returned (Addr 0)]; onceRuns := 1 |}.

(** ** The vocabulary of the specification *)

(** The fixed set of level names, each with its level. *)
Definition levelNames : list (string * Level) :=
  [ ("debug", DebugLevel); ("info", InfoLevel); ("warn", WarnLevel);
    ("error", ErrorLevel); ("dpanic", DPanicLevel); ("panic", PanicLevel);
    ("fatal", FatalLevel) ].

(** The level a name of the set stands for. *)
Definition levelOfName (name : string) : option Level :=
  snd <$> List.find (fun p => String.eqb name (fst p)) levelNames.

(** [s] is a casing of the lower-case word [name]: it has the length of
    [name] and each of its bytes is the letter of [name] at that place or
    the upper-case form of that letter. *)
Fixpoint casingOf (name s : string) : bool :=
  match name, s with
  | EmptyString, EmptyString => true
  | String d name', String c s' =>
      (Ascii.eqb c d || Ascii.eqb c (Bytes.upperByte d)) && casingOf name' s'
  | _, _ => false
  end.

(** [s] is a casing of one of the level names. *)
Definition casingOfLevel (s : string) : option Level :=
  snd <$> List.find (fun p => casingOf (fst p) s) levelNames.

(** A run of ASCII white space. *)
Definition padding (s : string) : bool := Bytes.all Bytes.asciiSpace s.

(** An ASCII byte that is not white space. *)
Definition solidByte (c : ascii) : bool :=
  Bytes.isASCIIByte c && negb (Bytes.asciiSpace c).

Definition headSolid (s : string) : bool :=
  match s with
  | EmptyString => true
  | String c _ => solidByte c
  end.

(** Nothing to trim: [s] neither starts nor ends with white space, and its
    first and last bytes are ASCII. *)
Definition trimmed (s : string) : bool :=
  headSolid s && headSolid (String.rev s).

(** * Properties *)

(** ** Byte strings *)

Section StringFacts.

Lemma append_cons (c : ascii) (s1 s2 : string) :
  String c s1 +:+ s2 = String c (s1 +:+ s2).
Proof. reflexivity. Qed.

Lemma append_nil_l (s : string) : "" +:+ s = s.
Proof. reflexivity. Qed.

Lemma append_nil_r (s : string) : s +:+ "" = s.
Proof.
  induction s as [|c s IH]; [done|]. by rewrite append_cons, IH.
Qed.

Lemma append_assoc (s1 s2 s3 : string) :
  (s1 +:+ s2) +:+ s3 = s1 +:+ (s2 +:+ s3).
Proof.
  induction s1 as [|c s1 IH]; [done|]. by rewrite !append_cons, IH.
Qed.

Lemma rev_app_append (s1 s2 s3 : string) :
  String.rev_app s1 s2 +:+ s3 = String.rev_app s1 (s2 +:+ s3).
Proof.
  revert s2. induction s1 as [|c s1 IH]; intros s2; simpl; [done|].
  by rewrite IH.
Qed.

Lemma rev_cons (c : ascii) (s : string) :
  String.rev (String c s) = String.rev s +:+ String c "".
Proof. unfold String.rev. simpl. by rewrite rev_app_append. Qed.

Lemma rev_append (s1 s2 : string) :
  String.rev (s1 +:+ s2) = String.rev s2 +:+ String.rev s1.
Proof.
  induction s1 as [|c s1 IH].
  - by rewrite append_nil_l, append_nil_r.
  - by rewrite append_cons, !rev_cons, IH, append_assoc.
Qed.

Lemma rev_involutive (s : string) : String.rev (String.rev s) = s.
Proof.
  induction s as [|c s IH]; [done|].
  by rewrite rev_cons, rev_append, IH.
Qed.

Lemma all_append (p : ascii -> bool) (s1 s2 : string) :
  Bytes.all p (s1 +:+ s2) = Bytes.all p s1 && Bytes.all p s2.
Proof.
  induction s1 as [|c s1 IH]; [done|].
  rewrite append_cons. simpl. by rewrite IH, andb_assoc.
Qed.

Lemma all_rev (p : ascii -> bool) (s : string) :
  Bytes.all p (String.rev s) = Bytes.all p s.
Proof.
  induction s as [|c s IH]; [done|].
  rewrite rev_cons, all_append, IH. simpl.
  rewrite andb_true_r. apply andb_comm.
Qed.

Lemma all_impl (p q : ascii -> bool) (s : string) :
  (forall c, p c = true -> q c = true) ->
  Bytes.all p s = true -> Bytes.all q s = true.
Proof.
  intros Hpq. induction s as [|c s IH]; simpl; [done|].
  intros [Hc Hs]%andb_true_iff. rewrite (Hpq c Hc). simpl. auto.
Qed.

(** Facts about single bytes, checked on all 256 of them. *)
Ltac each_byte c :=
  destruct c as [[] [] [] [] [] [] [] []]; vm_compute; try done; auto.

Lemma asciiSpace_isASCII (c : ascii) :
  Bytes.asciiSpace c = true -> Bytes.isASCIIByte c = true.
Proof. each_byte c. Qed.

Lemma isLowerByte_isASCII (c : ascii) :
  Bytes.isLowerByte c = true -> Bytes.isASCIIByte c = true.
Proof. each_byte c. Qed.

Lemma isLowerByte_not_space (c : ascii) :
  Bytes.isLowerByte c = true -> Bytes.asciiSpace c = false.
Proof. each_byte c. Qed.

Lemma lowerByte_lower (c : ascii) :
  Bytes.isLowerByte c = true -> Bytes.lowerByte c = c.
Proof. each_byte c. Qed.

Lemma lowerByte_upperByte (c : ascii) :
  Bytes.isLowerByte c = true -> Bytes.lowerByte (Bytes.upperByte c) = c.
Proof. each_byte c. Qed.

Lemma upperByte_isASCII (c : ascii) :
  Bytes.isLowerByte c = true -> Bytes.isASCIIByte (Bytes.upperByte c) = true.
Proof. each_byte c. Qed.

Lemma upperByte_not_space (c : ascii) :
  Bytes.isLowerByte c = true -> Bytes.asciiSpace (Bytes.upperByte c) = false.
Proof. each_byte c. Qed.

Lemma upperByte_lowerByte (c : ascii) :
  Bytes.isUpperByte c = true -> Bytes.upperByte (Bytes.lowerByte c) = c.
Proof. each_byte c. Qed.

Lemma lowerByte_fixed (c : ascii) :
  Bytes.isUpperByte c = false -> Bytes.lowerByte c = c.
Proof. unfold Bytes.lowerByte. by intros ->. Qed.

Lemma map_lowerByte_fixed (s : string) :
  Bytes.any Bytes.isUpperByte s = false -> Bytes.map Bytes.lowerByte s = s.
Proof.
  induction s as [|c s IH]; simpl; [done|].
  intros [Hc Hs]%orb_false_iff. by rewrite (lowerByte_fixed c Hc), IH.
Qed.

End StringFacts.

(** ** [strings.ToLower] and [strings.TrimSpace] on ASCII input *)

Section GoStringsFacts.

Context `{Runtime}.


(** On an ASCII string [ToLower] lowers every byte. *)
Lemma ToLower_ascii (s : string) :
  Bytes.all Bytes.isASCIIByte s = true ->
  ToLower s = Bytes.map Bytes.lowerByte s.
Proof.
  intros Hs. unfold ToLower. rewrite Hs.
  destruct (Bytes.any Bytes.isUpperByte s) eqn:Hu; [done|].
  by rewrite map_lowerByte_fixed.
Qed.

Lemma casingOf_solid (name s : string) :
  Bytes.all Bytes.isLowerByte name = true ->
  casingOf name s = true -> Bytes.all solidByte s = true.
Proof.
  revert s. induction name as [|d name IH]; intros [|c s]; simpl; try done.
  intros [Hd Hn]%andb_true_iff [Hc Hs]%andb_true_iff.
  rewrite (IH s Hn Hs), andb_true_r. unfold solidByte.
  apply orb_true_iff in Hc as [->%Ascii.eqb_eq | ->%Ascii.eqb_eq].
  - by rewrite isLowerByte_isASCII, isLowerByte_not_space.
  - by rewrite upperByte_isASCII, upperByte_not_space.
Qed.

Lemma solid_isASCII (s : string) :
  Bytes.all solidByte s = true -> Bytes.all Bytes.isASCIIByte s = true.
Proof.
  apply all_impl. unfold solidByte. by intros c [? _]%andb_true_iff.
Qed.

Lemma casingOf_lower (name s : string) :
  Bytes.all Bytes.isLowerByte name = true ->
  casingOf name s = true -> Bytes.map Bytes.lowerByte s = name.
Proof.
  revert s. induction name as [|d name IH]; intros [|c s]; simpl; try done.
  intros [Hd Hn]%andb_true_iff [Hc Hs]%andb_true_iff.
  rewrite (IH s Hn Hs). f_equal.
  apply orb_true_iff in Hc as [->%Ascii.eqb_eq | ->%Ascii.eqb_eq].
  - by apply lowerByte_lower.
  - by apply lowerByte_upperByte.
Qed.

Lemma lower_casingOf (name s : string) :
  Bytes.map Bytes.lowerByte s = name -> casingOf name s = true.
Proof.
  revert name. induction s as [|c s IH]; intros name <-; simpl; [done|].
  rewrite (IH _ eq_refl), andb_true_r. apply orb_true_iff.
  destruct (Bytes.isUpperByte c) eqn:Hu.
  - right. rewrite upperByte_lowerByte by done. apply Ascii.eqb_refl.
  - left. rewrite lowerByte_fixed by done. apply Ascii.eqb_refl.
Qed.

(** A casing of a lower-case word is exactly an ASCII string that
    [ToLower] sends to the word. *)
Lemma casingOf_ToLower (name s : string) :
  Bytes.all Bytes.isLowerByte name = true ->
  casingOf name s = true -> ToLower s = name.
Proof.
  intros Hn Hc. rewrite ToLower_ascii.
  - by apply casingOf_lower.
  - eapply solid_isASCII, casingOf_solid; eauto.
Qed.

Lemma ToLower_casingOf (name s : string) :
  Bytes.all Bytes.isASCIIByte s = true ->
  ToLower s = name -> casingOf name s = true.
Proof.
  intros Hs Hl. rewrite ToLower_ascii in Hl by done. by apply lower_casingOf.
Qed.

(** The second loop skips trailing white space. *)
Lemma trimStop_padding (r x : string) :
  padding r = true -> trimStop (r +:+ x) = trimStop x.
Proof.
  unfold padding. induction r as [|c r IH]; [done|].
  intros Hp. simpl in Hp. apply andb_true_iff in Hp as [Hc Hr].
  rewrite append_cons. simpl.
  by rewrite (asciiSpace_isASCII c Hc), Hc, IH.
Qed.

Lemma trimStop_solid (r : string) :
  headSolid r = true -> trimStop r = String.rev r.
Proof.
  destruct r as [|c r]; [done|]. simpl. unfold solidByte.
  intros [Ha Hs]%andb_true_iff. apply negb_true_iff in Hs.
  by rewrite Ha, Hs.
Qed.

(** The first loop skips leading white space. *)
Lemma TrimSpace_padding (l x : string) :
  padding l = true -> TrimSpace (l +:+ x) = TrimSpace x.
Proof.
  unfold padding. induction l as [|c l IH]; [done|].
  intros Hp. simpl in Hp. apply andb_true_iff in Hp as [Hc Hl].
  rewrite append_cons. simpl.
  by rewrite (asciiSpace_isASCII c Hc), Hc, IH.
Qed.

Lemma TrimSpace_all_padding (s : string) :
  padding s = true -> TrimSpace s = "".
Proof.
  intros Hs. rewrite <- (append_nil_r s). by rewrite TrimSpace_padding.
Qed.

(** [TrimSpace] removes ASCII padding around a trimmed string, and
    nothing else. *)
Lemma TrimSpace_padded (l body r : string) :
  padding l = true -> padding r = true -> trimmed body = true ->
  TrimSpace (l +:+ body +:+ r) = body.
Proof.
  intros Hl Hr [Hh Ht]%andb_true_iff. rewrite TrimSpace_padding by done.
  destruct body as [|c body].
  - rewrite append_nil_l. by apply TrimSpace_all_padding.
  - rewrite append_cons. simpl in Hh. simpl. unfold solidByte in Hh.
    apply andb_true_iff in Hh as [Ha Hs]. apply negb_true_iff in Hs.
    rewrite Ha, Hs. simpl.
    rewrite <- append_cons, rev_append, trimStop_padding.
    + by rewrite trimStop_solid, rev_involutive.
    + unfold padding. by rewrite all_rev.
Qed.

Lemma all_solid_trimmed (s : string) :
  Bytes.all solidByte s = true -> trimmed s = true.
Proof.
  intros Hs. unfold trimmed. apply andb_true_iff. split.
  - destruct s as [|c s]; [done|]. simpl in *. by apply andb_true_iff in Hs as [? _].
  - rewrite <- all_rev in Hs. destruct (String.rev s) as [|c r]; [done|].
    simpl in *. by apply andb_true_iff in Hs as [? _].
Qed.

(** A padded casing of a lower-case word is trimmed and lowered to the
    word. *)
Lemma ToLower_TrimSpace_padded (name l body r : string) :
  Bytes.all Bytes.isLowerByte name = true ->
  padding l = true -> padding r = true -> casingOf name body = true ->
  ToLower (TrimSpace (l +:+ body +:+ r)) = name.
Proof.
  intros Hn Hl Hr Hc. rewrite TrimSpace_padded; try done.
  - by apply casingOf_ToLower.
  - eapply all_solid_trimmed, casingOf_solid; eauto.
Qed.

End GoStringsFacts.

(** ** Level resolution *)

Section LevelFacts.

Context `{Runtime}.


(** The [switch] is a lookup of the lowered string in the table of names. *)
Lemma stringToZapLevel_lookup (s : string) :
  stringToZapLevel s = default InfoLevel (levelOfName (ToLower s)).
Proof.
  unfold stringToZapLevel, levelOfName. simpl.
  repeat (destruct (String.eqb (ToLower s) _); [done|]). done.
Qed.

Lemma eqb_ToLower_casingOf (name s : string) :
  Bytes.all Bytes.isLowerByte name = true ->
  Bytes.all Bytes.isASCIIByte s = true ->
  String.eqb (ToLower s) name = casingOf name s.
Proof.
  intros Hn Hs. destruct (casingOf name s) eqn:Hc.
  - apply String.eqb_eq. by apply casingOf_ToLower.
  - apply String.eqb_neq. intros Hl.
    by rewrite (ToLower_casingOf name s Hs Hl) in Hc.
Qed.

(** On ASCII input, looking the lowered string up is looking for a name
    the string is a casing of. *)
Lemma levelOfName_casing (s : string) :
  Bytes.all Bytes.isASCIIByte s = true ->
  levelOfName (ToLower s) = casingOfLevel s.
Proof.
  intros Hs. unfold levelOfName, casingOfLevel. simpl.
  by rewrite !eqb_ToLower_casingOf by (assumption || reflexivity).
Qed.

Lemma levelNames_lower :
  Forall (fun p => Bytes.all Bytes.isLowerByte (fst p) = true) levelNames.
Proof. repeat constructor. Qed.

Lemma casingOfLevel_Some (s : string) (l : Level) :
  casingOfLevel s = Some l ->
  exists name, In (name, l) levelNames /\ casingOf name s = true.
Proof.
  unfold casingOfLevel.
  destruct (List.find _ levelNames) as [[name l']|] eqn:Hf; [|done].
  intros [= <-]. apply find_some in Hf as [Hin Hc]. by exists name.
Qed.

Lemma casingOfLevel_solid (s : string) (l : Level) :
  casingOfLevel s = Some l -> Bytes.all solidByte s = true.
Proof.
  intros (name & Hin & Hc)%casingOfLevel_Some.
  apply casingOf_solid with name; [|done].
  pose proof levelNames_lower as Hlow.
  rewrite List.Forall_forall in Hlow. apply (Hlow _ Hin).
Qed.

Lemma any_append (p : ascii -> bool) (s1 s2 : string) :
  Bytes.any p (s1 +:+ s2) = Bytes.any p s1 || Bytes.any p s2.
Proof.
  induction s1 as [|c s1 IH]; [done|].
  rewrite append_cons. simpl. by rewrite IH, orb_assoc.
Qed.

Lemma solid_no_space (s : string) :
  Bytes.all solidByte s = true -> Bytes.any Bytes.asciiSpace s = false.
Proof.
  induction s as [|c s IH]; simpl; [done|].
  intros [[_ Hc%negb_true_iff]%andb_true_iff Hs]%andb_true_iff.
  by rewrite Hc, IH.
Qed.

Lemma padding_isASCII (s : string) :
  padding s = true -> Bytes.all Bytes.isASCIIByte s = true.
Proof. apply all_impl, asciiSpace_isASCII. Qed.

Lemma padding_nonempty_space (s : string) :
  padding s = true -> s <> "" -> Bytes.any Bytes.asciiSpace s = true.
Proof.
  destruct s as [|c s]; [done|]. unfold padding. simpl.
  by intros [-> _]%andb_true_iff _.
Qed.

(** A casing of a level name resolves to the level of that name. *)
Lemma stringToZapLevel_casing (s : string) (l : Level) :
  casingOfLevel s = Some l -> stringToZapLevel s = l.
Proof.
  intros Hc. rewrite stringToZapLevel_lookup, levelOfName_casing.
  - by rewrite Hc.
  - eapply solid_isASCII, casingOfLevel_solid; eauto.
Qed.

(** An ASCII string that is a casing of no level name resolves to info. *)
Lemma stringToZapLevel_no_casing (s : string) :
  Bytes.all Bytes.isASCIIByte s = true ->
  casingOfLevel s = None -> stringToZapLevel s = InfoLevel.
Proof.
  intros Hs Hc. by rewrite stringToZapLevel_lookup, levelOfName_casing, Hc.
Qed.

(** An ASCII string with white space anywhere in it resolves to info. *)
Lemma stringToZapLevel_space (s : string) :
  Bytes.all Bytes.isASCIIByte s = true ->
  Bytes.any Bytes.asciiSpace s = true -> stringToZapLevel s = InfoLevel.
Proof.
  intros Hs Hsp. apply stringToZapLevel_no_casing; [done|].
  destruct (casingOfLevel s) as [l|] eqn:Hc; [|done].
  apply casingOfLevel_solid, solid_no_space in Hc. congruence.
Qed.

(** C3: level resolution is total and case-insensitive.  For every string
    the result is the level named by the lower-cased string when that is
    one of debug, info, warn, error, dpanic, panic, fatal, and info
    otherwise; in particular every casing of a level name yields its level,
    an ASCII string that is a casing of none yields info, and so does the
    empty string.  The function returns a level on every input: it has no
    error result. *)
Theorem stringToZapLevel_total_case_insensitive (s : string) :
  stringToZapLevel s = default InfoLevel (levelOfName (ToLower s))
  /\ (forall l, casingOfLevel s = Some l -> stringToZapLevel s = l)
  /\ (Bytes.all Bytes.isASCIIByte s = true -> casingOfLevel s = None ->
      stringToZapLevel s = InfoLevel)
  /\ stringToZapLevel "" = InfoLevel.
Proof.
  split; [apply stringToZapLevel_lookup|].
  split; [apply stringToZapLevel_casing|].
  split; [apply stringToZapLevel_no_casing|].
  reflexivity.
Qed.

(** C4 (amended): level parsing folds case but does not trim.  A casing of
    a level name with ASCII white space around it resolves to that level
    when the white space is empty on both sides, and to info as soon as
    there is any. *)
Theorem stringToZapLevel_not_trimmed (l body r : string) (lvl : Level) :
  padding l = true -> padding r = true -> casingOfLevel body = Some lvl ->
  stringToZapLevel (l +:+ body +:+ r) =
    if decide (l = "" /\ r = "") then lvl else InfoLevel.
Proof.
  intros Hl Hr Hb. case_decide as Hpad.
  - destruct Hpad as [-> ->]. rewrite append_nil_l, append_nil_r.
    by apply stringToZapLevel_casing.
  - pose proof (casingOfLevel_solid _ _ Hb) as Hsolid.
    apply stringToZapLevel_space.
    + rewrite !all_append, (padding_isASCII l Hl), (padding_isASCII r Hr).
      by rewrite (solid_isASCII body Hsolid).
    + rewrite !any_append. apply not_and_l in Hpad as [Hne|Hne].
      * by rewrite (padding_nonempty_space l Hl Hne).
      * rewrite (padding_nonempty_space r Hr Hne). by rewrite !orb_true_r.
Qed.

End LevelFacts.

(** ** The logger factory, the default logger and the context binding *)

Section LoggingFacts.

Context `{Runtime}.


Lemma NewLogger_returns (develop : bool) (level : string) (w : World) :
  NewLogger develop level w =
    Returns (Addr (length (heap w)),
             allocated (zap.Sugar (loggerFor develop level)) w).
Proof. reflexivity. Qed.

Lemma NewLoggerFromEnv_returns (w : World) :
  NewLoggerFromEnv w =
    NewLogger (developMode (default "" (environ w !! "LOG_MODE")))
      (default "" (environ w !! "LOG_LEVEL")) w.
Proof. reflexivity. Qed.

Lemma deref_allocated (s : zap.SugaredLogger) (w : World) :
  deref (allocated s w) (Addr (length (heap w))) = Some s.
Proof.
  simpl. rewrite lookup_app_r by done. by rewrite Nat.sub_diag.
Qed.

Lemma DefaultLogger_done (w : World) :
  defaultLoggerOnce w = true ->
  DefaultLogger w = Returns (defaultLogger w, w).
Proof.
  intros Hd. unfold DefaultLogger, mbind, M_bind, Once_Do.
  by rewrite Hd.
Qed.

Lemma DefaultLogger_first (w : World) :
  defaultLoggerOnce w = false ->
  exists w0,
    NewLoggerFromEnv w = Returns (Addr (length (heap w)), w0) /\
    DefaultLogger w =
      Returns (Addr (length (heap w)), published (Addr (length (heap w))) w0).
Proof.
  intros Hd. eexists. split; [apply NewLoggerFromEnv_returns|].
  unfold DefaultLogger, mbind, M_bind, Once_Do. by rewrite Hd.
Qed.

(** The three ways of [FromContext] on a non-nil context: the value under
    [loggerKey] is a logger, it is something else, or [Value] panics. *)
Lemma FromContext_cases (c : ctxImpl) (w : World) :
  (exists p, Value c loggerKey = Returns (AnySugaredLogger p) /\
             FromContext (Some c) w = Returns (p, w)) \/
  ((exists v, Value c loggerKey = Returns v /\
              forall p, v <> AnySugaredLogger p) /\
   FromContext (Some c) w = DefaultLogger w) \/
  (exists msg, Value c loggerKey = Panics msg /\
               FromContext (Some c) w = Panics msg).
Proof.
  unfold FromContext. destruct (Value c loggerKey) as [v|msg].
  - destruct v; eauto; right; left; split; eauto.
  - right. right. by exists msg.
Qed.

(** In a world where the default logger is published, each call leaves it
    published, unchanged and allocated. *)
Lemma exec_keeps_default (c : Call) (w w' : World) (p : Ptr)
    (a : nat) (s : zap.SugaredLogger) :
  exec c w = Returns (p, w') ->
  defaultLoggerOnce w = true -> defaultLogger w = Addr a ->
  heap w !! a = Some s ->
  defaultLoggerOnce w' = true /\ defaultLogger w' = Addr a /\
  heap w' !! a = Some s.
Proof.
  intros He Hd Hp Ha.
  assert (Hdl : DefaultLogger w = Returns (p, w') ->
                defaultLoggerOnce w' = true /\ defaultLogger w' = Addr a /\
                heap w' !! a = Some s).
  { rewrite DefaultLogger_done by done. by intros [= <- <-]. }
  destruct c as [develop level| | |ctx|key value]; simpl in He.
  - rewrite NewLogger_returns in He. injection He as <- <-. simpl.
    by rewrite (lookup_app_l_Some _ _ _ _ Ha).
  - rewrite NewLoggerFromEnv_returns, NewLogger_returns in He.
    injection He as <- <-. simpl.
    by rewrite (lookup_app_l_Some _ _ _ _ Ha).
  - by apply Hdl.
  - destruct ctx as [c|]; [|done].
    destruct (FromContext_cases c w)
      as [(q & _ & Hq)|[[_ Hq]|(msg & _ & Hq)]]; rewrite Hq in He.
    + by injection He as <- <-.
    + by apply Hdl.
    + done.
  - by injection He as <- <-.
Qed.

Lemma later_keeps_default (w w' : World) (a : nat) (s : zap.SugaredLogger) :
  later w w' ->
  defaultLoggerOnce w = true -> defaultLogger w = Addr a ->
  heap w !! a = Some s ->
  defaultLoggerOnce w' = true /\ defaultLogger w' = Addr a /\
  heap w' !! a = Some s.
Proof.
  intros Hl Hd Hp Ha. induction Hl as [|w1 c p w2 _ IH He]; [done|].
  destruct IH as (Hd1 & Hp1 & Ha1). by eapply exec_keeps_default.
Qed.

Lemma constructions_snoc (cs : list Call) (c : Call) :
  constructions (cs ++ [c]) =
    constructions cs + (if isConstructor c then 1 else 0).
Proof.
  unfold constructions. rewrite filter_app, length_app. f_equal.
  rewrite filter_cons, filter_nil. by destruct (isConstructor c).
Qed.

(** The heap holds one logger per constructor call, and one more exactly
    when the default logger has been built. *)
Lemma reaches_heap (env : gmap string string) (cs : list Call) (w : World) :
  reaches env cs w ->
  length (heap w) =
    constructions cs + (if defaultLoggerOnce w then 1 else 0) /\
  consistent w.
Proof.
  induction 1 as [|cs w c p w' _ [IHn IHc] He]; [done|].
  rewrite constructions_snoc.
  assert (Hdl : DefaultLogger w = Returns (p, w') ->
    length (heap w') =
      constructions cs + 0 + (if defaultLoggerOnce w' then 1 else 0) /\
    consistent w').
  { destruct (defaultLoggerOnce w) eqn:Hd.
    - rewrite DefaultLogger_done by done. intros [= <- <-].
      rewrite Hd. split; [lia|done].
    - destruct (DefaultLogger_first w Hd) as (w0 & Hn & ->).
      rewrite NewLoggerFromEnv_returns, NewLogger_returns in Hn.
      injection Hn as <-. intros [= <- <-]. simpl.
      rewrite length_app. simpl. split; [lia|].
      intros _. eexists _, _. split; [done|]. simpl.
      rewrite lookup_app_r by done. by rewrite Nat.sub_diag. }
  assert (Hal : forall s,
    consistent (allocated s w)).
  { intros s Hd. destruct (IHc Hd) as (a & s' & Hp & Ha).
    exists a, s'. split; [done|]. simpl.
    by rewrite (lookup_app_l_Some _ _ _ _ Ha). }
  destruct c as [develop level| | |ctx|key value]; simpl in He |- *.
  - rewrite NewLogger_returns in He. injection He as <- <-.
    split; [|apply Hal]. simpl. rewrite length_app. simpl. lia.
  - rewrite NewLoggerFromEnv_returns, NewLogger_returns in He.
    injection He as <- <-.
    split; [|apply Hal]. simpl. rewrite length_app. simpl. lia.
  - by apply Hdl.
  - destruct ctx as [c|]; [|done].
    destruct (FromContext_cases c w)
      as [(q & _ & Hq)|[[_ Hq]|(msg & _ & Hq)]]; rewrite Hq in He.
    + injection He as <- <-. split; [lia|done].
    + by apply Hdl.
    + done.
  - injection He as <- <-. split; [simpl; lia|done].
Qed.

(** One caller at a time.  In every world a run can reach, the heap holds
    one logger per constructor call plus exactly one once the default
    logger exists; a call of [DefaultLogger] returns an allocated, non-nil
    logger; when the [Once] has not run, that logger is the one
    [NewLoggerFromEnv] builds in this call, and when it has run, the call
    builds nothing and changes nothing; every later call, after whatever
    other calls, returns the same address, holding the same logger, and
    again changes nothing. *)
Lemma DefaultLogger_sequential
    (env : gmap string string) (cs : list Call) (w : World) :
  reaches env cs w ->
  length (heap w) =
    constructions cs + (if defaultLoggerOnce w then 1 else 0) /\
  exists a s w1,
    DefaultLogger w = Returns (Addr a, w1) /\
    deref w1 (Addr a) = Some s /\
    (if defaultLoggerOnce w then w1 = w
     else exists w0, NewLoggerFromEnv w = Returns (Addr a, w0) /\
                     w1 = published (Addr a) w0) /\
    forall w2, later w1 w2 ->
      DefaultLogger w2 = Returns (Addr a, w2) /\
      deref w2 (Addr a) = Some s.
Proof.
  intros [Hn Hc]%reaches_heap. split; [done|].
  assert (Hlater : forall a s w1,
    defaultLoggerOnce w1 = true -> defaultLogger w1 = Addr a ->
    heap w1 !! a = Some s ->
    forall w2, later w1 w2 ->
      DefaultLogger w2 = Returns (Addr a, w2) /\ deref w2 (Addr a) = Some s).
  { intros a s w1 Hd Hp Ha w2 Hl.
    destruct (later_keeps_default w1 w2 a s Hl Hd Hp Ha) as (Hd2 & Hp2 & Ha2).
    rewrite DefaultLogger_done by done. by rewrite Hp2. }
  destruct (defaultLoggerOnce w) eqn:Hd.
  - destruct (Hc Hd) as (a & s & Hp & Ha).
    exists a, s, w. rewrite DefaultLogger_done, Hp by done.
    do 3 (split; [done|]). by apply Hlater.
  - destruct (DefaultLogger_first w Hd) as (w0 & Hnew & Hdl).
    pose proof Hnew as Hnew'.
    rewrite NewLoggerFromEnv_returns, NewLogger_returns in Hnew'.
    injection Hnew' as <-.
    eexists _, _, _. split; [exact Hdl|].
    split; [apply deref_allocated|].
    split; [eexists; split; [exact Hnew|done]|].
    apply Hlater; [done..|]. apply deref_allocated.
Qed.

(** C2: a logger attached to a non-nil context is the one retrieved from
    the derived context, and retrieving it changes nothing. *)
Theorem FromContext_WithLogger (ctx : Context) (L : Ptr) (w : World) :
  ctx <> None ->
  (ctx' ← lift (WithLogger ctx L); FromContext ctx') w = Returns (L, w).
Proof.
  destruct ctx as [c|]; [intros _|done]. reflexivity.
Qed.

(** C5: [NewLogger] returns a fresh, allocated, non-nil logger for every
    input and never panics; when [Build] fails the logger is the no-op
    logger, which emits at no level, and when [Build] succeeds it is the
    logger built. *)
Theorem NewLogger_build_failure_fallback
    (develop : bool) (level : string) (w : World) :
  exists a s w',
    NewLogger develop level w = Returns (Addr a, w') /\
    deref w' (Addr a) = Some s /\
    deref w (Addr a) = None /\
    (forall err, Build (resolveConfig develop level) = inr err ->
       s = zap.Sugar zap.NewNop /\ forall lvl, zap.Emits s lvl = false) /\
    (forall logger, Build (resolveConfig develop level) = inl logger ->
       s = zap.Sugar logger).
Proof.
  eexists _, _, _. split; [apply NewLogger_returns|].
  split; [apply deref_allocated|].
  split; [by apply lookup_ge_None_2|].
  unfold loggerFor. split.
  - by intros err ->.
  - by intros logger ->.
Qed.

(** C6: on a non-nil context whose value under [loggerKey] is not a
    [*zap.SugaredLogger] (nothing bound, or a value of another type),
    [FromContext] is [DefaultLogger]: same result, same effect; and it
    returns. *)
Theorem FromContext_fallback (c : ctxImpl) (w : World) (v : any) :
  Value c loggerKey = Returns v ->
  (forall p, v <> AnySugaredLogger p) ->
  FromContext (Some c) w = DefaultLogger w /\
  exists p w', FromContext (Some c) w = Returns (p, w').
Proof.
  intros Hval Hv.
  destruct (FromContext_cases c w)
    as [(q & Hq & _)|[[_ Hq]|(msg & Hq & _)]]; [|clear Hval|congruence].
  { rewrite Hq in Hval. injection Hval as <-. by destruct (Hv q). }
  split; [done|]. rewrite Hq.
  destruct (defaultLoggerOnce w) eqn:Hd.
  - rewrite DefaultLogger_done by done. eauto.
  - destruct (DefaultLogger_first w Hd) as (w0 & _ & ->). eauto.
Qed.

(** A padded casing of develop trims and lowers to develop. *)
Lemma developMode_padded (l body r : string) :
  padding l = true -> padding r = true -> casingOf "develop" body = true ->
  ToLower (TrimSpace (l +:+ body +:+ r)) = "develop".
Proof. intros Hl Hr Hb. by apply ToLower_TrimSpace_padded. Qed.

(** C7 (amended): [NewLoggerFromEnv] returns an allocated logger made by
    [NewLogger] from the mode and the unchanged level of the
    environment.  When the trimmed, lower-cased value of LOG_MODE is
    develop, which holds for every casing of develop inside ASCII white
    space, [develop] is true, and the logger returned is a development
    logger (console encoding) at the level LOG_LEVEL names, provided the
    engine accepts the configuration.  For every other value, the unset
    and the empty one included, [develop] is false and the logger is a
    production logger (JSON encoding) at that level, under the same
    proviso.  When the engine rejects the configuration the logger
    returned is the no-op logger in either mode. *)
Theorem NewLoggerFromEnv_mode_logger (w : World) :
  let mode := default "" (environ w !! "LOG_MODE") in
  let level := default "" (environ w !! "LOG_LEVEL") in
  exists a s w',
    NewLoggerFromEnv w = Returns (Addr a, w') /\
    deref w' (Addr a) = Some s /\
    (ToLower (TrimSpace mode) = "develop" ->
       NewLoggerFromEnv w = NewLogger true level w /\
       (buildError (resolveConfig true level) = None ->
          zap.development (zap.base s) = true /\
          zap.core (zap.base s) =
            zap.ioCore "console" (stringToZapLevel level)) /\
       (buildError (resolveConfig true level) <> None ->
          s = zap.Sugar zap.NewNop)) /\
    (ToLower (TrimSpace mode) <> "develop" ->
       NewLoggerFromEnv w = NewLogger false level w /\
       (buildError (resolveConfig false level) = None ->
          zap.development (zap.base s) = false /\
          zap.core (zap.base s) =
            zap.ioCore "json" (stringToZapLevel level)) /\
       (buildError (resolveConfig false level) <> None ->
          s = zap.Sugar zap.NewNop)) /\
    (forall l body r,
       padding l = true -> padding r = true ->
       casingOf "develop" body = true -> mode = l +:+ body +:+ r ->
       ToLower (TrimSpace mode) = "develop") /\
    (mode = "" -> ToLower (TrimSpace mode) <> "develop").
Proof.
  intros mode level.
  assert (Hlogger : forall d,
    (buildError (resolveConfig d level) = None ->
       zap.development (zap.base (zap.Sugar (loggerFor d level))) = d /\
       zap.core (zap.base (zap.Sugar (loggerFor d level))) =
         zap.ioCore (if d then "console" else "json")
           (stringToZapLevel level)) /\
    (buildError (resolveConfig d level) <> None ->
       zap.Sugar (loggerFor d level) = zap.Sugar zap.NewNop)).
  { intros d. unfold loggerFor, Build.
    destruct (buildError (resolveConfig d level)) as [err|]; split; try done.
    intros _. by destruct d. }
  eexists _, _, _.
  split; [rewrite NewLoggerFromEnv_returns; apply NewLogger_returns|].
  split; [apply deref_allocated|].
  fold mode level. rewrite NewLoggerFromEnv_returns. fold mode level.
  unfold developMode.
  split; [|split; [|split]].
  - intros ->%String.eqb_eq. split; [done|]. apply (Hlogger true).
  - intros ->%String.eqb_neq. split; [done|]. apply (Hlogger false).
  - intros l body r Hl Hr Hb ->. by apply developMode_padded.
  - by intros ->.
Qed.

(** C8: [WithLogger] panics on a nil context and, on every non-nil
    context, returns the context derived from it that binds the logger
    under [loggerKey] and answers every other key as the parent does. *)
Theorem WithLogger_nil_context (L : Ptr) :
  (exists msg, WithLogger None L = Panics msg) /\
  forall c : ctxImpl,
    WithLogger (Some c) L =
      Returns (Some (valueCtx c loggerKey (AnySugaredLogger L))) /\
    forall k, k <> loggerKey ->
      Value (valueCtx c loggerKey (AnySugaredLogger L)) k = Value c k.
Proof.
  split; [by eexists|]. intros c. split; [done|].
  intros k Hk. simpl. by rewrite decide_False.
Qed.

(** C9: the binding is private to [loggerKey].  A value stored under any
    other key, such as the plain string of the same spelling, is not
    what [FromContext] returns and does not hide a logger attached
    before; two contexts with the same value under [loggerKey] give the
    same [FromContext]. *)
Theorem loggerKey_non_interference (c : ctxImpl) (k v : any) (w : World) :
  k <> loggerKey ->
  (forall ctx', WithValue (Some c) k v = Returns ctx' ->
     FromContext ctx' w = FromContext (Some c) w) /\
  (forall L c1 c2,
     WithLogger (Some c) L = Returns c1 -> WithValue c1 k v = Returns c2 ->
     FromContext c2 w = Returns (L, w)) /\
  (forall c', Value c loggerKey = Value c' loggerKey ->
     FromContext (Some c) w = FromContext (Some c') w).
Proof.
  intros Hk. split; [|split].
  - intros ctx'. unfold WithValue.
    destruct (decide (k = AnyNil)); [done|].
    destruct (comparable k); [|done]. intros [= <-].
    unfold FromContext. simpl. by rewrite decide_False.
  - intros L c1 c2 [= <-]. unfold WithValue.
    destruct (decide (k = AnyNil)); [done|].
    destruct (comparable k); [|done]. intros [= <-].
    unfold FromContext. simpl. by rewrite decide_False.
  - intros c' Hv. unfold FromContext. by rewrite Hv.
Qed.

(** C10: a nil logger attached to a non-nil context is what [FromContext]
    returns: the type assertion holds for the typed nil pointer, the
    default logger is not consulted, and the pointer returned has no
    logger behind it, whereas [DefaultLogger] in a world of a run returns
    an allocated one. *)
Theorem FromContext_WithLogger_nil
    (c : ctxImpl) (env : gmap string string) (cs : list Call) (w : World) :
  reaches env cs w ->
  (ctx' ← lift (WithLogger (Some c) NilPtr); FromContext ctx') w =
    Returns (NilPtr, w) /\
  deref w NilPtr = None /\
  exists a s w1,
    DefaultLogger w = Returns (Addr a, w1) /\ deref w1 (Addr a) = Some s.
Proof.
  intros [_ Hc]%reaches_heap. split; [|split; [done|]].
  - reflexivity.
  - destruct (defaultLoggerOnce w) eqn:Hd.
    + destruct (Hc Hd) as (a & s & Hp & Ha).
      exists a, s, w. by rewrite DefaultLogger_done, Hp.
    + destruct (DefaultLogger_first w Hd) as (w0 & Hnew & ->).
      rewrite NewLoggerFromEnv_returns, NewLogger_returns in Hnew.
      injection Hnew as <-. eexists _, _, _. split; [done|].
      apply deref_allocated.
Qed.

End LoggingFacts.

(** ** Concurrent callers: the invariant *)

Section ConcurrentFacts.

Context `{Runtime}.

(** What holds at a program point survives every change of the process
    that keeps the two package variables and the count, and only adds to
    the heap. *)
Lemma pcOk_mono (P P' : Process) (p : pc) :
  defaultLoggerOnce (world P') = defaultLoggerOnce (world P) ->
  defaultLogger (world P') = defaultLogger (world P) ->
  onceRuns P' = onceRuns P ->
  (forall a s, heap (world P) !! a = Some s ->
               heap (world P') !! a = Some s) ->
  pcOk P p -> pcOk P' p.
Proof.
  intros Hd Hp Hn Hh. destruct p; simpl; rewrite ?Hd, ?Hp, ?Hn; try done.
  - intros (? & ? & a & s & ? & ?). eauto 8.
  - intros (? & ? & a & s & ? & ?). eauto 8.
Qed.

(** Outside the critical section, before the flag is set, a goroutine is
    at a point of which nothing is required. *)
Lemma pcOk_not_done (P P' : Process) (p : pc) :
  critical p = false -> defaultLoggerOnce (world P) = false ->
  pcOk P p -> pcOk P' p.
Proof.
  destruct p; simpl; try done.
  - intros _ Hd Hd'. congruence.
  - intros _ Hd [Hd' _]. congruence.
Qed.

Lemma pcOk_noncritical (P P' : Process) (p : pc) :
  critical p = false ->
  defaultLoggerOnce (world P') = defaultLoggerOnce (world P) ->
  defaultLogger (world P') = defaultLogger (world P) ->
  pcOk P p -> pcOk P' p.
Proof.
  intros Hc Hd Hp. destruct p; simpl; rewrite ?Hd, ?Hp; done.
Qed.

(** The invariant after goroutine [i] has moved from [p] to [p']. *)
Lemma processInv_update (i : nat) (p p' : pc) (P P' : Process) :
  processInv P -> goroutines P !! i = Some p ->
  goroutines P' = <[i := p']> (goroutines P) ->
  pcOk P' p' ->
  (forall j q, j <> i -> goroutines P !! j = Some q -> pcOk P' q) ->
  (critical p' = true -> critical p = true \/ mutex P = false) ->
  (mutex P' = false ->
     critical p' = false /\ (mutex P = false \/ critical p = true)) ->
  (mutex P' = true ->
     critical p' = true \/ (mutex P = true /\ critical p = false)) ->
  (defaultLoggerOnce (world P') = true ->
     onceRuns P' = 1 /\
     exists a s, defaultLogger (world P') = Addr a /\
                 heap (world P') !! a = Some s) ->
  (mutex P' = false -> defaultLoggerOnce (world P') = false ->
     onceRuns P' = 0) ->
  processInv P'.
Proof.
  intros HI Hi Hg Hp' Hothers Hexcl Hunl Hloc Hdone Hfresh.
  assert (Hlt : i < length (goroutines P)) by by eapply lookup_lt_Some.
  assert (Hlook : forall j q, goroutines P' !! j = Some q ->
            (j = i /\ q = p') \/ (j <> i /\ goroutines P !! j = Some q)).
  { intros j q. rewrite Hg. intros Hj.
    apply list_lookup_insert_Some in Hj as [(-> & -> & _)|[? ?]]; auto. }
  assert (Hother : forall j q, j <> i -> goroutines P !! j = Some q ->
            critical q = true -> critical p' = true -> False).
  { intros j q Hne Hj Hq Hc'. destruct (Hexcl Hc') as [Hc|Hm].
    - by apply Hne, (inv_exclusion P HI j i q p).
    - rewrite (inv_unlocked P HI Hm j q Hj) in Hq. done. }
  split; [| | | |exact Hdone|exact Hfresh].
  - intros j q Hj'. destruct (Hlook j q Hj') as [[-> ->]|[Hne Hj]]; [done|].
    by apply (Hothers j).
  - intros j k q r Hj' Hk' Hcq Hcr.
    destruct (Hlook j q Hj') as [[-> ->]|[Hj Hq]];
      destruct (Hlook k r Hk') as [[-> ->]|[Hk Hr]]; [done| | |].
    + by destruct (Hother k r).
    + by destruct (Hother j q).
    + by apply (inv_exclusion P HI j k q r).
  - intros Hm j q Hj'. destruct (Hlook j q Hj') as [[-> ->]|[Hne Hj]].
    + by destruct (Hunl Hm).
    + destruct (Hunl Hm) as [_ [Hm'|Hc]].
      * by apply (inv_unlocked P HI Hm' j q).
      * destruct (critical q) eqn:Hq; [|done].
        by destruct Hne, (inv_exclusion P HI j i q p).
  - intros Hm. destruct (Hloc Hm) as [Hc'|[Hm' Hc]].
    + exists i, p'. split; [|done]. rewrite Hg.
      by apply list_lookup_insert_eq.
    + destruct (inv_locked P HI Hm') as (j & q & Hj & Hq).
      exists j, q. split; [|done]. rewrite Hg.
      rewrite list_lookup_insert_ne; [done|]. intros ->. congruence.
Qed.

Ltac same_world P HI :=
  let j := fresh "j" in let q := fresh "q" in let Hj := fresh "Hj" in
  intros j q _ Hj; apply (pcOk_mono P); [done..|by apply (inv_pc P HI j)].

Ltac side P HI :=
  simpl;
  first [ same_world P HI
        | exact (inv_done P HI)
        | exact (inv_fresh P HI)
        | by intros; simpl in *; auto
        | by intros; simpl in *; split; auto
        | by intros; simpl in *; congruence ].

Lemma stepGoroutine_inv (i : nat) (P P' : Process) :
  processInv P -> stepGoroutine i P = Some P' -> processInv P'.
Proof.
  intros HI. unfold stepGoroutine.
  destruct (goroutines P !! i) as [p|] eqn:Hi; [|done].
  pose proof (inv_pc P HI i p Hi) as Hp.
  assert (Hnc : critical p = true ->
    forall j q, j <> i -> goroutines P !! j = Some q -> critical q = false).
  { intros Hc j q Hne Hj. destruct (critical q) eqn:Hq; [|done].
    by destruct Hne, (inv_exclusion P HI j i q p). }
  assert (Hm : critical p = true -> mutex P = true).
  { intros Hc. destruct (mutex P) eqn:Hmu; [done|].
    by rewrite (inv_unlocked P HI Hmu i p Hi) in Hc. }
  destruct p; simpl in Hp, Hnc, Hm.
  - destruct (defaultLoggerOnce (world P)) eqn:Hd; intros [= <-].
    + apply (processInv_update i AtDo AtReturn P); try done; side P HI.
    + apply (processInv_update i AtDo AtLock P); try done; side P HI.
  - destruct (mutex P) eqn:Hmu; [done|]. intros [= <-].
    apply (processInv_update i AtLock AtRecheck P); try done; try side P HI.
    + simpl. apply (inv_fresh P HI Hmu).
  - specialize (Hnc eq_refl). specialize (Hm eq_refl).
    destruct (defaultLoggerOnce (world P)) eqn:Hd; intros [= <-].
    + apply (processInv_update i AtRecheck AtUnlock P); try done; try side P HI.
    + apply (processInv_update i AtRecheck AtNew P); try done; try side P HI.
      intros j q Hne Hj. apply (pcOk_noncritical P); [by apply (Hnc j)|done..|].
      by apply (inv_pc P HI j).
  - specialize (Hnc eq_refl). specialize (Hm eq_refl).
    destruct Hp as [Hd Hn]. rewrite NewLoggerFromEnv_returns, NewLogger_returns.
    intros [= <-].
    apply (processInv_update i AtNew (AtAssign (Addr (length (heap (world P))))) P);
      try done; try side P HI.
    + simpl. do 2 (split; [done|]). eexists _, _. split; [done|].
      rewrite lookup_app_r by done. by rewrite Nat.sub_diag.
    + intros j q Hne Hj. apply (pcOk_noncritical P); [by apply (Hnc j)|done..|].
      by apply (inv_pc P HI j).
  - specialize (Hnc eq_refl). specialize (Hm eq_refl).
    destruct Hp as (Hd & Hn & a & s & -> & Ha). intros [= <-].
    apply (processInv_update i (AtAssign (Addr a)) AtStoreDone P);
      try done; try side P HI.
    + simpl. eauto 8.
    + intros j q Hne Hj. apply (pcOk_not_done P); [by apply (Hnc j)|done|].
      by apply (inv_pc P HI j).
  - specialize (Hnc eq_refl). specialize (Hm eq_refl).
    destruct Hp as (Hd & Hn & a & s & Hp & Ha). intros [= <-].
    apply (processInv_update i AtStoreDone AtUnlock P);
      try done; try side P HI.
    + intros j q Hne Hj. apply (pcOk_not_done P); [by apply (Hnc j)|done|].
      by apply (inv_pc P HI j).
    + simpl. eauto 8.
  - specialize (Hnc eq_refl). specialize (Hm eq_refl). intros [= <-].
    apply (processInv_update i AtUnlock AtReturn P);
      try done; try side P HI.
  - intros [= <-].
    apply (processInv_update i AtReturn (Returned (defaultLogger (world P))) P);
      try done; try side P HI.
  - done.
Qed.

Lemma stepHost_inv (c : Call) (P P' : Process) :
  processInv P -> stepHost c P = Some P' -> processInv P'.
Proof.
  intros HI. unfold stepHost.
  assert (Hmono : forall w',
    defaultLoggerOnce w' = defaultLoggerOnce (world P) ->
    defaultLogger w' = defaultLogger (world P) ->
    (forall a s, heap (world P) !! a = Some s -> heap w' !! a = Some s) ->
    processInv (withWorld w' P)).
  { intros w' Hd Hp Hh. split; simpl.
    - intros i p Hi. apply (pcOk_mono P); try done. by apply (inv_pc P HI i).
    - apply (inv_exclusion P HI).
    - apply (inv_unlocked P HI).
    - apply (inv_locked P HI).
    - rewrite Hd, Hp. intros Hd'.
      destruct (inv_done P HI Hd') as (? & a & s & ? & ?). eauto 8.
    - rewrite Hd. apply (inv_fresh P HI). }
  destruct c as [develop level| | |ctx|key value];
    cbn [isHostCall exec]; try done.
  - rewrite NewLogger_returns. intros [= <-]. apply Hmono; try done.
    intros a s Ha. simpl. by rewrite (lookup_app_l_Some _ _ _ _ Ha).
  - rewrite NewLoggerFromEnv_returns, NewLogger_returns. intros [= <-].
    apply Hmono; try done.
    intros a s Ha. simpl. by rewrite (lookup_app_l_Some _ _ _ _ Ha).
  - simpl. intros [= <-]. by apply Hmono.
Qed.

Lemma startProcess_inv (env : gmap string string) (n : nat) :
  processInv (startProcess env n).
Proof.
  split; simpl; try done.
  - by intros i p [-> _]%lookup_replicate.
  - by intros i j p q [-> _]%lookup_replicate.
  - by intros _ i p [-> _]%lookup_replicate.
Qed.

Lemma runSchedule_inv (sched : list event) (P P' : Process) :
  processInv P -> runSchedule sched P = Some P' -> processInv P'.
Proof.
  revert P. induction sched as [|e sched IH]; intros P HI; simpl.
  - by intros [= <-].
  - destruct (stepEvent e P) as [P1|] eqn:He; [|done].
    apply IH. destruct e as [i|c]; simpl in He.
    + by eapply stepGoroutine_inv.
    + by eapply stepHost_inv.
Qed.

(** At most one run of the function literal. *)
Lemma processInv_onceRuns (P : Process) :
  processInv P -> onceRuns P <= 1.
Proof.
  intros HI. destruct (defaultLoggerOnce (world P)) eqn:Hd.
  { destruct (inv_done P HI Hd) as [-> _]. lia. }
  destruct (mutex P) eqn:Hm.
  - destruct (inv_locked P HI Hm) as (i & p & Hi & Hc).
    pose proof (inv_pc P HI i p Hi) as Hp.
    destruct p; simpl in Hp, Hc; try done.
    + rewrite Hp by done. lia.
    + destruct Hp as [_ ->]. lia.
    + destruct Hp as (_ & -> & _). lia.
    + destruct Hp as (_ & -> & _). lia.
    + congruence.
  - rewrite (inv_fresh P HI Hm Hd). lia.
Qed.

(** What a goroutine has been returned. *)
Lemma processInv_returned (P : Process) (i : nat) (p : Ptr) :
  processInv P -> goroutines P !! i = Some (Returned p) ->
  onceRuns P = 1 /\
  exists a s, p = Addr a /\ heap (world P) !! a = Some s /\
    forall j q, goroutines P !! j = Some (Returned q) -> q = p.
Proof.
  intros HI Hi. destruct (inv_pc P HI i _ Hi) as [Hd ->].
  destruct (inv_done P HI Hd) as (Hn & a & s & Hp & Ha).
  split; [done|]. exists a, s. do 2 (split; [done|]).
  intros j q Hj. by destruct (inv_pc P HI j _ Hj) as [_ ->].
Qed.


Lemma sum_list_insert (l : list nat) (i x y : nat) :
  l !! i = Some x -> sum_list (<[i := y]> l) + x = sum_list l + y.
Proof.
  revert i. induction l as [|z l IH]; intros [|i]; simpl; try done.
  - intros [= ->]. lia.
  - intros Hi. specialize (IH i Hi). lia.
Qed.

Lemma work_goto (i : nat) (p p' : pc) (P : Process) :
  goroutines P !! i = Some p -> remaining p' < remaining p ->
  work (goto i p' P) < work P.
Proof.
  intros Hi Hlt. unfold work. simpl. rewrite list_fmap_insert.
  pose proof (sum_list_insert (remaining <$> goroutines P) i (remaining p)
                (remaining p')) as Hs.
  rewrite list_lookup_fmap, Hi in Hs. specialize (Hs eq_refl). lia.
Qed.

(** A goroutine that can step gets closer to its return. *)
Lemma stepGoroutine_work (i : nat) (P P' : Process) :
  stepGoroutine i P = Some P' -> work P' < work P.
Proof.
  unfold stepGoroutine. destruct (goroutines P !! i) as [p|] eqn:Hi; [|done].
  destruct p.
  - destruct (defaultLoggerOnce (world P)); intros [= <-];
      apply (work_goto i AtDo); simpl; done || lia.
  - destruct (mutex P); [done|]. intros [= <-].
    apply (work_goto i AtLock _ P); simpl; done || lia.
  - destruct (defaultLoggerOnce (world P)); intros [= <-];
      apply (work_goto i AtRecheck _ P); simpl; done || lia.
  - rewrite NewLoggerFromEnv_returns, NewLogger_returns. intros [= <-].
    apply (work_goto i AtNew _ P); simpl; done || lia.
  - intros [= <-]. apply (work_goto i (AtAssign p) _ P); simpl; done || lia.
  - intros [= <-]. apply (work_goto i AtStoreDone _ P); simpl; done || lia.
  - intros [= <-]. apply (work_goto i AtUnlock _ P); simpl; done || lia.
  - intros [= <-]. apply (work_goto i AtReturn _ P); simpl; done || lia.
  - done.
Qed.

(** No deadlock: while a goroutine has not returned, some goroutine can
    step. *)
Lemma processInv_progress (P : Process) (i : nat) (p : pc) :
  processInv P -> goroutines P !! i = Some p -> isReturned p = false ->
  exists j P', stepGoroutine j P = Some P'.
Proof.
  intros HI Hi Hr.
  assert (Hcrit : forall j q, goroutines P !! j = Some q ->
            critical q = true -> exists P', stepGoroutine j P = Some P').
  { intros j q Hj Hc. unfold stepGoroutine. rewrite Hj.
    destruct q; simpl in Hc; try done;
      try destruct (defaultLoggerOnce (world P));
      rewrite ?NewLoggerFromEnv_returns, ?NewLogger_returns; eauto. }
  destruct (mutex P) eqn:Hm.
  - destruct (inv_locked P HI Hm) as (j & q & Hj & Hc).
    exists j. by apply (Hcrit j q).
  - exists i. pose proof (inv_unlocked P HI Hm i p Hi) as Hc.
    unfold stepGoroutine. rewrite Hi, ?Hm.
    destruct p; simpl in Hc, Hr; try done;
      try destruct (defaultLoggerOnce (world P)); eauto.
Qed.

(** Every call returns: from each process of a run some schedule of
    goroutine steps leads to a process in which all goroutines have
    returned. *)
Lemma processInv_completes (P : Process) :
  processInv P ->
  exists sched P', runSchedule sched P = Some P' /\
    Forall (fun p => isReturned p = true) (goroutines P').
Proof.
  remember (work P) as n eqn:Hn. revert P Hn.
  induction (lt_wf n) as [n _ IH]. intros P -> HI.
  destruct (decide (Forall (fun p => isReturned p = true) (goroutines P)))
    as [Hall|Hnot].
  - by exists [], P.
  - apply not_Forall_Exists in Hnot; [|solve_decision].
    apply Exists_exists in Hnot as (p & Hin & Hp).
    apply list_elem_of_lookup in Hin as [i Hi].
    apply not_true_is_false in Hp.
    destruct (processInv_progress P i p HI Hi Hp) as (j & P1 & Hstep).
    destruct (IH (work P1) (stepGoroutine_work j P P1 Hstep) P1 eq_refl
                (stepGoroutine_inv j P P1 HI Hstep))
      as (sched & P' & Hrun & Hall).
    exists (Go j :: sched), P'. split; [|done]. simpl. by rewrite Hstep.
Qed.

(** X11: one goroutine on its own takes the steps of [DefaultLogger]:
    from any world, with the mutex free, some schedule of its steps ends
    with the goroutine returned, the mutex free again, and the result and
    the world of [DefaultLogger] as a function. *)
Lemma stepGoroutine_solo (w : World) (n : nat) :
  exists sched P' p,
    runSchedule sched
      {| world := w; mutex := false; goroutines := [AtDo]; onceRuns := n |}
      = Some P' /\
    goroutines P' = [Returned p] /\ mutex P' = false /\
    DefaultLogger w = Returns (p, world P').
Proof.
  destruct (defaultLoggerOnce w) eqn:Hd.
  - exists [Go 0; Go 0]. eexists _, _. split.
    + simpl. repeat (progress (unfold stepGoroutine; simpl; rewrite ?Hd)).
      reflexivity.
    + simpl. by rewrite DefaultLogger_done.
  - exists (replicate 8 (Go 0)). eexists _, _. split.
    + simpl. repeat (progress (unfold stepGoroutine; simpl; rewrite ?Hd)).
      reflexivity.
    + simpl. do 2 (split; [done|]).
      unfold DefaultLogger, mbind, M_bind, Once_Do. by rewrite Hd.
Qed.

(** Callers at the same time.  In every process reached by a schedule the
    function literal has run at most once; a goroutine that has returned
    holds an allocated, non-nil logger, the literal has then run exactly
    once, and every other goroutine that has returned holds the same
    address; and some schedule lets every goroutine return. *)
Lemma DefaultLogger_concurrent
    (env : gmap string string) (n : nat) (sched : list event) (P : Process) :
  runSchedule sched (startProcess env n) = Some P ->
  onceRuns P <= 1 /\
  (forall i p, goroutines P !! i = Some (Returned p) ->
     onceRuns P = 1 /\
     exists a s, p = Addr a /\ heap (world P) !! a = Some s /\
       forall j q, goroutines P !! j = Some (Returned q) -> q = p) /\
  exists sched' P', runSchedule sched' P = Some P' /\
    Forall (fun p => isReturned p = true) (goroutines P').
Proof.
  intros Hrun.
  pose proof (runSchedule_inv sched _ P (startProcess_inv env n) Hrun) as HI.
  split; [by apply processInv_onceRuns|].
  split; [intros i p; by apply processInv_returned|].
  by apply processInv_completes.
Qed.

(** C1: [DefaultLogger] is a singleton.  With one caller at a time
    ([reaches]): the heap holds one logger per constructor call plus
    exactly one once the default logger exists; the first call builds it
    through [NewLoggerFromEnv]; every call returns an allocated, non-nil
    logger, and every later call returns the same address and builds and
    changes nothing.  With callers at the same time ([runSchedule], the
    steps of [sync.Once]): the function literal runs at most once, every
    goroutine that has returned holds the same allocated, non-nil logger,
    and every goroutine can be led to its return. *)
Theorem DefaultLogger_singleton (env : gmap string string) :
  (forall cs w, reaches env cs w ->
     length (heap w) =
       constructions cs + (if defaultLoggerOnce w then 1 else 0) /\
     exists a s w1,
       DefaultLogger w = Returns (Addr a, w1) /\
       deref w1 (Addr a) = Some s /\
       (if defaultLoggerOnce w then w1 = w
        else exists w0, NewLoggerFromEnv w = Returns (Addr a, w0) /\
                        w1 = published (Addr a) w0) /\
       forall w2, later w1 w2 ->
         DefaultLogger w2 = Returns (Addr a, w2) /\
         deref w2 (Addr a) = Some s) /\
  (forall n sched P, runSchedule sched (startProcess env n) = Some P ->
     onceRuns P <= 1 /\
     (forall i p, goroutines P !! i = Some (Returned p) ->
        onceRuns P = 1 /\
        exists a s, p = Addr a /\ heap (world P) !! a = Some s /\
          forall j q, goroutines P !! j = Some (Returned q) -> q = p) /\
     exists sched' P', runSchedule sched' P = Some P' /\
       Forall (fun p => isReturned p = true) (goroutines P')).
Proof.
  split.
  - intros cs w. apply DefaultLogger_sequential.
  - intros n sched P. apply DefaultLogger_concurrent.
Qed.

End ConcurrentFacts.

(** ** Further properties of the package *)

Section MoreStringFacts.

Context `{Runtime}.

(** The second loop of [TrimSpace] on ASCII input: what it removes is
    white space, and what it keeps starts with a byte that is not. *)
Lemma trimStop_decompose (r : string) :
  Bytes.all Bytes.isASCIIByte r = true ->
  exists pad t,
    r = pad +:+ t /\ padding pad = true /\ headSolid t = true /\
    trimStop r = String.rev t.
Proof.
  induction r as [|c r IH]; simpl.
  - intros _. by exists "", "".
  - intros [Hc Hr]%andb_true_iff. rewrite Hc. simpl.
    destruct (Bytes.asciiSpace c) eqn:Hs.
    + destruct (IH Hr) as (pad & t & -> & Hp & Ht & Hstop).
      exists (String c pad), t. rewrite append_cons.
      unfold padding in *. simpl. by rewrite Hs, Hp.
    + exists "", (String c r). rewrite append_nil_l.
      repeat split; try done. simpl. unfold solidByte. by rewrite Hc, Hs.
Qed.

(** [TrimSpace] on ASCII input removes white space at both ends and
    nothing else. *)
Lemma TrimSpace_decompose (s : string) :
  Bytes.all Bytes.isASCIIByte s = true ->
  exists l r,
    s = l +:+ TrimSpace s +:+ r /\ padding l = true /\ padding r = true /\
    Bytes.all Bytes.isASCIIByte (TrimSpace s) = true.
Proof.
  induction s as [|c s IH].
  - intros _. by exists "", "".
  - intros Hs. pose proof Hs as Hs'. simpl in Hs'.
    apply andb_true_iff in Hs' as [Hc Hrest]. simpl. rewrite Hc. simpl.
    destruct (Bytes.asciiSpace c) eqn:Hsp.
    + destruct (IH Hrest) as (l & r & Heq & Hl & Hr & Ha).
      exists (String c l), r. rewrite append_cons, <- Heq.
      unfold padding in *. simpl. by rewrite Hsp, Hl.
    + assert (Hrev : Bytes.all Bytes.isASCIIByte (String.rev (String c s))
                     = true) by by rewrite all_rev.
      destruct (trimStop_decompose _ Hrev) as (pad & t & Heq & Hp & _ & ->).
      exists "", (String.rev pad). rewrite append_nil_l.
      rewrite <- rev_append, <- Heq, rev_involutive.
      repeat split; try done.
      * unfold padding. by rewrite all_rev.
      * rewrite Heq, all_append in Hrev.
        apply andb_true_iff in Hrev as [_ Ht]. by rewrite all_rev.
Qed.

End MoreStringFacts.

Section ExtraFacts.

Context `{Runtime}.

Lemma lowerByte_idem (c : ascii) :
  Bytes.lowerByte (Bytes.lowerByte c) = Bytes.lowerByte c.
Proof. destruct c as [[] [] [] [] [] [] [] []]; by vm_compute. Qed.

Lemma eqFoldByte_lower (c d : ascii) :
  eqFoldByte c d = true -> Bytes.lowerByte c = Bytes.lowerByte d.
Proof.
  unfold eqFoldByte.
  intros [[Hcd|Hcd]%orb_true_iff|Hcd]%orb_true_iff.
  - by apply Ascii.eqb_eq in Hcd as ->.
  - apply andb_true_iff in Hcd as [_ <-%Ascii.eqb_eq].
    by rewrite lowerByte_idem.
  - apply andb_true_iff in Hcd as [_ <-%Ascii.eqb_eq].
    by rewrite lowerByte_idem.
Qed.

Lemma eqFold_lower (s1 s2 : string) :
  eqFold s1 s2 = true ->
  Bytes.map Bytes.lowerByte s1 = Bytes.map Bytes.lowerByte s2.
Proof.
  revert s2. induction s1 as [|c s1 IH]; intros [|d s2]; simpl; try done.
  intros [Hc Hs]%andb_true_iff.
  by rewrite (eqFoldByte_lower c d Hc), (IH s2 Hs).
Qed.

(** X1: level resolution does not see the case of ASCII letters: two
    ASCII strings that are the same up to case resolve to the same
    level, whether they name a level or not. *)
Theorem stringToZapLevel_eqFold (s1 s2 : string) :
  Bytes.all Bytes.isASCIIByte s1 = true ->
  Bytes.all Bytes.isASCIIByte s2 = true ->
  eqFold s1 s2 = true ->
  stringToZapLevel s1 = stringToZapLevel s2.
Proof.
  intros H1 H2 Hf. rewrite !stringToZapLevel_lookup, !ToLower_ascii by done.
  by rewrite (eqFold_lower s1 s2 Hf).
Qed.

(** X2: for an ASCII value of LOG_MODE, development mode is chosen
    exactly when the value is a casing of develop with nothing but ASCII
    white space before and after it. *)
Theorem developMode_ascii_exact (mode : string) :
  Bytes.all Bytes.isASCIIByte mode = true ->
  (developMode mode = true <->
   exists l body r,
     mode = l +:+ body +:+ r /\ padding l = true /\ padding r = true /\
     casingOf "develop" body = true).
Proof.
  intros Hm. unfold developMode. rewrite String.eqb_eq. split.
  - intros Hl.
    destruct (TrimSpace_decompose mode Hm) as (l & r & Heq & Hpl & Hpr & Ha).
    exists l, (TrimSpace mode), r. repeat split; try done.
    by apply ToLower_casingOf.
  - intros (l & body & r & -> & Hl & Hr & Hb).
    by apply ToLower_TrimSpace_padded.
Qed.

(** X3: the level of the logger comes from the level string alone.  When
    the engine accepts the configuration, the logger [NewLogger] returns
    emits at a level exactly when that level is at or above
    [stringToZapLevel level]; the level of the preset is overwritten, so
    that development mode with a string that names no level logs from
    info, not from debug; and the logger is a development logger exactly
    when [develop] is set. *)
Theorem NewLogger_level_gate (develop : bool) (level : string) (w : World) :
  buildError (resolveConfig develop level) = None ->
  exists a s w',
    NewLogger develop level w = Returns (Addr a, w') /\
    deref w' (Addr a) = Some s /\
    (forall lvl,
       zap.Emits s lvl =
         (zapcore.to_Z (stringToZapLevel level) <=? zapcore.to_Z lvl)%Z) /\
    zap.development (zap.base s) = develop /\
    (levelOfName (ToLower level) = None ->
       zap.Emits s DebugLevel = false /\ zap.Emits s InfoLevel = true).
Proof.
  intros Hb. eexists _, _, _. split; [apply NewLogger_returns|].
  split; [apply deref_allocated|].
  unfold loggerFor, Build. rewrite Hb.
  split; [|split].
  - intros lvl. unfold zap.Emits. simpl. by destruct develop.
  - by destruct develop.
  - intros Hn. unfold zap.Emits. simpl.
    assert (Hl : stringToZapLevel level = InfoLevel)
      by by rewrite stringToZapLevel_lookup, Hn.
    destruct develop; simpl; by rewrite Hl.
Qed.

(** X4: with LOG_MODE and LOG_LEVEL both unset or empty,
    [NewLoggerFromEnv] builds the production logger at info level: JSON
    encoding, no development mode, debug entries dropped and info entries
    emitted. *)
Theorem NewLoggerFromEnv_unset (w : World) :
  default "" (environ w !! "LOG_MODE") = "" ->
  default "" (environ w !! "LOG_LEVEL") = "" ->
  NewLoggerFromEnv w = NewLogger false "" w /\
  resolveConfig false "" = zap.NewProductionConfig /\
  (buildError zap.NewProductionConfig = None ->
   exists a w',
     NewLoggerFromEnv w = Returns (Addr a, w') /\
     deref w' (Addr a) =
       Some (zap.Sugar (zap.built zap.NewProductionConfig)) /\
     zap.Emits (zap.Sugar (zap.built zap.NewProductionConfig)) DebugLevel
       = false /\
     zap.Emits (zap.Sugar (zap.built zap.NewProductionConfig)) InfoLevel
       = true).
Proof.
  intros Hmode Hlevel.
  assert (Heq : NewLoggerFromEnv w = NewLogger false "" w).
  { by rewrite NewLoggerFromEnv_returns, Hmode, Hlevel. }
  rewrite Heq. split; [done|]. split; [done|]. intros Hb.
  eexists _, _. split; [apply NewLogger_returns|].
  split; [|done].
  rewrite deref_allocated. unfold loggerFor, Build.
  change (resolveConfig false "") with zap.NewProductionConfig.
  by rewrite Hb.
Qed.

(** A call leaves the two package variables alone, or publishes the
    default logger. *)
Lemma exec_package_variables (c : Call) (w w' : World) (p : Ptr) :
  exec c w = Returns (p, w') ->
  (defaultLoggerOnce w' = defaultLoggerOnce w /\
   defaultLogger w' = defaultLogger w) \/
  (defaultLoggerOnce w = false /\ defaultLoggerOnce w' = true).
Proof.
  assert (Hdl : DefaultLogger w = Returns (p, w') ->
    (defaultLoggerOnce w' = defaultLoggerOnce w /\
     defaultLogger w' = defaultLogger w) \/
    (defaultLoggerOnce w = false /\ defaultLoggerOnce w' = true)).
  { destruct (defaultLoggerOnce w) eqn:Hd.
    - rewrite DefaultLogger_done by done. intros [= <- <-]. by left.
    - destruct (DefaultLogger_first w Hd) as (w0 & _ & ->).
      intros [= <- <-]. by right. }
  destruct c as [develop level| | |ctx|key value]; cbn [exec].
  - rewrite NewLogger_returns. intros [= <- <-]. by left.
  - rewrite NewLoggerFromEnv_returns, NewLogger_returns.
    intros [= <- <-]. by left.
  - done.
  - destruct ctx as [c|]; [|done].
    destruct (FromContext_cases c w)
      as [(q & _ & ->)|[[_ ->]|(msg & _ & ->)]]; [|done..].
    intros [= <- <-]. by left.
  - simpl. intros [= <- <-]. by left.
Qed.

(** Before the first [DefaultLogger] call of a run the variable is nil. *)
Lemma reaches_unpublished
    (env : gmap string string) (cs : list Call) (w : World) :
  reaches env cs w ->
  defaultLoggerOnce w = false -> defaultLogger w = NilPtr.
Proof.
  induction 1 as [|cs w c p w' _ IH He]; [done|].
  destruct (exec_package_variables c w w' p He) as [[Hd ->]|[_ Hd]].
  - rewrite Hd. exact IH.
  - congruence.
Qed.

(** X5: a constructor never hands out the default logger.  In a world of
    a run, the logger [NewLogger] returns is at an address that held
    nothing before, is not the default logger, and is not what
    [DefaultLogger] returns afterwards either; the same holds for
    [NewLoggerFromEnv]. *)
Theorem NewLogger_never_default
    (env : gmap string string) (cs : list Call) (w : World)
    (develop : bool) (level : string) :
  reaches env cs w ->
  exists a w',
    NewLogger develop level w = Returns (Addr a, w') /\
    deref w (Addr a) = None /\
    defaultLogger w <> Addr a /\
    (forall q w'', DefaultLogger w' = Returns (q, w'') -> q <> Addr a) /\
    (forall b wb,
       NewLoggerFromEnv w = Returns (Addr b, wb) ->
       defaultLogger w <> Addr b /\
       forall q w'', DefaultLogger wb = Returns (q, w'') -> q <> Addr b).
Proof.
  intros Hreach. pose proof (reaches_unpublished env cs w Hreach) as Hnil.
  apply reaches_heap in Hreach as [_ Hc].
  assert (Hfresh : forall s,
    defaultLogger w <> Addr (length (heap w)) /\
    forall q w'', DefaultLogger (allocated s w) = Returns (q, w'') ->
                  q <> Addr (length (heap w))).
  { intros s. destruct (defaultLoggerOnce w) eqn:Hd.
    - destruct (Hc Hd) as (b & sb & Hp & Hb).
      apply lookup_lt_Some in Hb.
      assert (Hne : Addr b <> Addr (length (heap w))) by (intros [= ->]; lia).
      split; [by rewrite Hp|]. intros q w''.
      rewrite DefaultLogger_done by done. simpl. intros [= <- _].
      by rewrite Hp.
    - split; [by rewrite Hnil|]. intros q w''.
      destruct (DefaultLogger_first (allocated s w) Hd) as (w0 & _ & ->).
      simpl. rewrite length_app. simpl. intros [= <- _] [= Hlen]. lia. }
  eexists _, _. split; [apply NewLogger_returns|].
  split; [by apply lookup_ge_None_2|].
  destruct (Hfresh (zap.Sugar (loggerFor develop level))) as [Hf1 Hf2].
  split; [exact Hf1|]. split; [exact Hf2|].
  intros b wb. rewrite NewLoggerFromEnv_returns, NewLogger_returns.
  intros [= <- <-]. apply Hfresh.
Qed.

(** Every context derived from [root] answers [loggerKey] as [root]
    does. *)
Lemma derived_Value (root c : ctxImpl) :
  derived root c -> Value c loggerKey = Value root loggerKey.
Proof.
  induction 1 as [|c k v _ IH Hk|c _ IH]; simpl; [done| |done].
  by rewrite decide_False.
Qed.

(** X6: a logger attached to a context is the one retrieved from every
    context derived from it, through any number of cancel contexts and
    of values under other keys, whatever was attached further down; the
    retrieval changes nothing, so it does not build the default logger.
    In general a derived context retrieves what its root does. *)
Theorem FromContext_derived (root c : ctxImpl) (w : World) :
  derived root c ->
  FromContext (Some c) w = FromContext (Some root) w /\
  forall parent L,
    WithLogger (Some parent) L = Returns (Some root) ->
    FromContext (Some c) w = Returns (L, w).
Proof.
  intros Hd%derived_Value.
  assert (Heq : FromContext (Some c) w = FromContext (Some root) w).
  { unfold FromContext. by rewrite Hd. }
  split; [done|]. intros parent L [= <-]. by rewrite Heq.
Qed.

(** What one call does to the heap and to the environment. *)
Lemma exec_frame (c : Call) (w w' : World) (p : Ptr) :
  exec c w = Returns (p, w') ->
  (heap w' = heap w \/
   exists develop level,
     heap w' = heap w ++ [zap.Sugar (loggerFor develop level)]) /\
  (isSetenv c = false -> environ w' = environ w).
Proof.
  assert (Hdl : DefaultLogger w = Returns (p, w') ->
    (heap w' = heap w \/
     exists develop level,
       heap w' = heap w ++ [zap.Sugar (loggerFor develop level)]) /\
    environ w' = environ w).
  { destruct (defaultLoggerOnce w) eqn:Hd.
    - rewrite DefaultLogger_done by done. intros [= <- <-]. by split; [left|].
    - destruct (DefaultLogger_first w Hd) as (w0 & Hn & ->).
      rewrite NewLoggerFromEnv_returns, NewLogger_returns in Hn.
      injection Hn as <-. intros [= <- <-]. split; [right|done].
      by eexists _, _. }
  destruct c as [develop level| | |ctx|key value]; cbn [exec].
  - rewrite NewLogger_returns. intros [= <- <-].
    split; [right|done]. by eexists _, _.
  - rewrite NewLoggerFromEnv_returns, NewLogger_returns. intros [= <- <-].
    split; [right|done]. by eexists _, _.
  - intros Hc. by destruct (Hdl Hc).
  - destruct ctx as [c|]; [|done].
    destruct (FromContext_cases c w)
      as [(q & _ & ->)|[[_ ->]|(msg & _ & ->)]].
    + intros [= <- <-]. by split; [left|].
    + intros Hc. by destruct (Hdl Hc).
    + done.
  - simpl. intros [= <- <-]. by split; [left|].
Qed.

(** X7: a logger, once allocated, stays where it is and as it is for the
    rest of the run: no call of the package moves, changes or frees it;
    and no function of the package writes the process environment. *)
Theorem loggers_persist (w w' : World) :
  later w w' ->
  (forall a s, heap w !! a = Some s -> heap w' !! a = Some s) /\
  length (heap w) <= length (heap w') /\
  forall c p w'', isSetenv c = false ->
    exec c w' = Returns (p, w'') -> environ w'' = environ w'.
Proof.
  intros Hl. split; [|split].
  - induction Hl as [|w1 c p w2 _ IH He]; [done|].
    intros a s Ha. specialize (IH a s Ha).
    destruct (exec_frame c w1 w2 p He) as [[->|(d & l & ->)] _]; [done|].
    by apply lookup_app_l_Some.
  - induction Hl as [|w1 c p w2 _ IH He]; [done|].
    destruct (exec_frame c w1 w2 p He) as [[->|(d & l & ->)] _]; [done|].
    rewrite length_app. lia.
  - intros c p w'' Hs He. by apply (exec_frame c w' w'' p He).
Qed.

(** With an engine that rejects every configuration, every logger of a
    run is the no-op logger. *)
Lemma reaches_all_nop
    (env : gmap string string) (cs : list Call) (w : World) :
  (forall c, buildError c <> None) -> reaches env cs w ->
  forall a s, heap w !! a = Some s -> s = zap.Sugar zap.NewNop.
Proof.
  intros Hfail. induction 1 as [|cs w c p w' _ IH He]; [done|].
  intros a s. destruct (exec_frame c w w' p He) as [[->|(d & l & ->)] _].
  - apply IH.
  - intros [Ha|[_ Ha]]%lookup_app_Some; [by apply (IH a)|].
    apply list_lookup_singleton_Some in Ha as [_ <-].
    unfold loggerFor, Build.
    destruct (buildError (resolveConfig d l)) eqn:Hb; [done|].
    by destruct (Hfail (resolveConfig d l)).
Qed.

(** X8: with an engine that rejects every configuration the default
    logger is the no-op logger for the whole run: every [DefaultLogger]
    call returns it, and it emits at no level. *)
Theorem DefaultLogger_nop_when_engine_fails
    (env : gmap string string) (cs : list Call) (w : World) :
  (forall c, buildError c <> None) -> reaches env cs w ->
  exists a w1,
    DefaultLogger w = Returns (Addr a, w1) /\
    deref w1 (Addr a) = Some (zap.Sugar zap.NewNop) /\
    (forall lvl, zap.Emits (zap.Sugar zap.NewNop) lvl = false) /\
    forall w2, later w1 w2 ->
      DefaultLogger w2 = Returns (Addr a, w2) /\
      deref w2 (Addr a) = Some (zap.Sugar zap.NewNop).
Proof.
  intros Hfail Hreach.
  destruct (DefaultLogger_sequential env cs w Hreach)
    as (_ & a & s & w1 & Hd & Hs & _ & Hlater).
  assert (Hreach1 : reaches env (cs ++ [CallDefaultLogger]) w1).
  { by apply (reaches_step env cs w CallDefaultLogger (Addr a)). }
  pose proof (reaches_all_nop env _ w1 Hfail Hreach1 a s Hs) as ->.
  exists a, w1. do 3 (split; [done|]). exact Hlater.
Qed.

(** X9: the fallback of [FromContext] is the singleton.  On a context
    without a logger, in a world of a run, [FromContext] returns an
    allocated logger, and from then on both [FromContext] on that
    context and [DefaultLogger] return this logger and change nothing. *)
Theorem FromContext_fallback_singleton
    (env : gmap string string) (cs : list Call) (w : World) (c : ctxImpl)
    (v : any) :
  reaches env cs w ->
  Value c loggerKey = Returns v ->
  (forall p, v <> AnySugaredLogger p) ->
  exists a s w1,
    FromContext (Some c) w = Returns (Addr a, w1) /\
    deref w1 (Addr a) = Some s /\
    forall w2, later w1 w2 ->
      FromContext (Some c) w2 = Returns (Addr a, w2) /\
      DefaultLogger w2 = Returns (Addr a, w2) /\
      deref w2 (Addr a) = Some s.
Proof.
  intros Hreach Hval Hv.
  assert (Hfb : forall w0, FromContext (Some c) w0 = DefaultLogger w0).
  { intros w0. destruct (FromContext_cases c w0)
      as [(q & Hq & _)|[[_ Hq]|(msg & Hq & _)]]; [|done|congruence].
    rewrite Hq in Hval. injection Hval as <-. by destruct (Hv q). }
  destruct (DefaultLogger_sequential env cs w Hreach)
    as (_ & a & s & w1 & Hd & Hs & _ & Hlater).
  exists a, s, w1. rewrite Hfb. do 2 (split; [done|]).
  intros w2 Hl. rewrite Hfb. destruct (Hlater w2 Hl). by repeat split.
Qed.

(** X10: the level of the default logger is that of LOG_LEVEL at the
    first call.  When the [Once] has not run and the engine accepts the
    configuration of the environment, [DefaultLogger] returns a logger
    that emits at a level exactly when it is at or above the level
    LOG_LEVEL names at that moment; and later calls return this very
    logger whatever the environment has become. *)
Theorem DefaultLogger_level_fixed (w : World) :
  let mode := default "" (environ w !! "LOG_MODE") in
  let level := default "" (environ w !! "LOG_LEVEL") in
  defaultLoggerOnce w = false ->
  buildError (resolveConfig (developMode mode) level) = None ->
  exists a s w1,
    DefaultLogger w = Returns (Addr a, w1) /\
    deref w1 (Addr a) = Some s /\
    (forall lvl,
       zap.Emits s lvl =
         (zapcore.to_Z (stringToZapLevel level) <=? zapcore.to_Z lvl)%Z) /\
    forall w2, later w1 w2 ->
      DefaultLogger w2 = Returns (Addr a, w2) /\
      deref w2 (Addr a) = Some s.
Proof.
  intros mode level Hd Hb.
  destruct (DefaultLogger_first w Hd) as (w0 & Hn & Hdl).
  rewrite NewLoggerFromEnv_returns, NewLogger_returns in Hn.
  injection Hn as <-. fold mode level in Hdl.
  eexists _, _, _. split; [exact Hdl|].
  split; [apply deref_allocated|]. split.
  - intros lvl. unfold loggerFor, Build. rewrite Hb.
    unfold zap.Emits. simpl. by destruct (developMode mode).
  - intros w2 Hl.
    destruct (later_keeps_default _ w2 _ _ Hl eq_refl eq_refl
                (deref_allocated _ w)) as (Hd2 & Hp2 & Ha2).
    rewrite DefaultLogger_done by done. by rewrite Hp2.
Qed.

(** A context made by package [context] alone answers every key. *)
Lemma standard_Value (c : ctxImpl) (key : any) :
  standard c = true -> exists v, Value c key = Returns v.
Proof.
  induction c as [|parent IH k v|parent IH|value]; simpl; try done.
  - by exists AnyNil.
  - intros Hs. destruct (decide (k = key)); [by exists v|by apply IH].
Qed.

(** X12: [FromContext] panics exactly when the context is nil or its own
    [Value] method panics on [loggerKey]: there it does not fall back to
    the default logger.  Otherwise it returns, and so it does on every
    context made by package [context] alone from [Background] or
    [TODO]. *)
Theorem FromContext_panics_iff (ctx : Context) (w : World) :
  ((exists msg, FromContext ctx w = Panics msg) <->
   ctx = None \/
   exists c msg, ctx = Some c /\ Value c loggerKey = Panics msg) /\
  (forall c, ctx = Some c -> standard c = true ->
     exists p w', FromContext ctx w = Returns (p, w')).
Proof.
  assert (Hdl : exists p w', DefaultLogger w = Returns (p, w')).
  { destruct (defaultLoggerOnce w) eqn:Hd.
    - rewrite DefaultLogger_done by done. eauto.
    - destruct (DefaultLogger_first w Hd) as (w0 & _ & ->). eauto. }
  destruct Hdl as (p0 & w0 & Hdl).
  split; [split|].
  - destruct ctx as [c|]; [|by left]. intros [msg Hp]. right.
    destruct (FromContext_cases c w)
      as [(q & _ & Hq)|[[_ Hq]|(msg' & Hv & _)]].
    + congruence.
    + congruence.
    + by exists c, msg'.
  - intros [->|(c & msg & -> & Hv)]; [by eexists|].
    exists msg. unfold FromContext. by rewrite Hv.
  - intros c -> Hs.
    destruct (standard_Value c loggerKey Hs) as [v Hv].
    destruct (FromContext_cases c w)
      as [(q & _ & Hq)|[[_ Hq]|(msg' & Hv' & _)]].
    + rewrite Hq. eauto.
    + rewrite Hq, Hdl. eauto.
    + congruence.
Qed.

End ExtraFacts.

(** ** Instances on concrete inputs *)

(** The scenario of the specification: with the mode unset and the level
    WARN, the first [DefaultLogger] call builds a production logger at
    warn level, which drops a debug entry and emits a warn entry. *)
Example DefaultLogger_warn_scenario :
  @DefaultLogger asciiRuntime (initWorld warnEnv) =
    Returns (Addr 0, warnWorld) /\
  zap.development (zap.base warnLogger) = false /\
  zap.Emits warnLogger DebugLevel = false /\
  zap.Emits warnLogger WarnLevel = true.
Proof. by vm_compute. Qed.

Lemma warnWorld_reached :
  @reaches asciiRuntime warnEnv [CallDefaultLogger] warnWorld.
Proof.
  apply (@reaches_step asciiRuntime warnEnv [] (initWorld warnEnv)
           CallDefaultLogger (Addr 0) warnWorld).
  - constructor.
  - by vm_compute.
Defined.

(** C1 at the world after the first call, where the second call returns
    the logger at address 0 again and builds nothing, and on two
    goroutines racing for the first call. *)
Lemma DefaultLogger_singleton_witness :
  @reaches asciiRuntime warnEnv [CallDefaultLogger] warnWorld /\
  @runSchedule asciiRuntime racingSchedule (startProcess warnEnv 2) =
    Some racedProcess /\
  (exists w1,
     @DefaultLogger asciiRuntime warnWorld = Returns (Addr 0, w1) /\
     w1 = warnWorld) /\
  onceRuns racedProcess <= 1.
Proof.
  split; [exact warnWorld_reached|]. split; [by vm_compute|].
  pose proof (@DefaultLogger_singleton asciiRuntime warnEnv) as [Hseq Hconc].
  split.
  - destruct (Hseq [CallDefaultLogger] warnWorld warnWorld_reached)
      as (_ & a & s & w1 & Hd & _ & Hw & _).
    exists w1. split; [|exact Hw]. rewrite Hd.
    assert (Ha : Addr a = Addr 0) by (vm_compute in Hd; congruence).
    by rewrite Ha.
  - exact (proj1 (Hconc 2 racingSchedule racedProcess eq_refl)).
Defined.

(** C2 on the background context. *)
Lemma FromContext_WithLogger_witness :
  Some emptyCtx <> None /\
  (ctx' ← lift (WithLogger (Some emptyCtx) (Addr 0));
   @FromContext asciiRuntime ctx') warnWorld = Returns (Addr 0, warnWorld).
Proof.
  split; [done|].
  apply (@FromContext_WithLogger asciiRuntime (Some emptyCtx) (Addr 0)
           warnWorld).
  done.
Defined.

(** C3 on a mixed casing of warn. *)
Lemma stringToZapLevel_total_case_insensitive_witness :
  casingOfLevel "WaRn" = Some WarnLevel /\
  @stringToZapLevel asciiRuntime "WaRn" = WarnLevel.
Proof.
  split; [reflexivity|].
  apply (proj1 (proj2
    (@stringToZapLevel_total_case_insensitive asciiRuntime "WaRn"))).
  reflexivity.
Defined.

(** C4 as first stated fails: the padded string " WARN " resolves to info, not
    to the level its trimmed form names. *)
Lemma stringToZapLevel_padded_WARN :
  levelOfName
    (@ToLower asciiRuntime (@TrimSpace asciiRuntime " WARN ")) =
    Some WarnLevel /\
  @stringToZapLevel asciiRuntime " WARN " = InfoLevel /\
  InfoLevel <> WarnLevel.
Proof. split; [reflexivity|]. split; [reflexivity|]. discriminate. Qed.

(** C4 (amended) on the same string. *)
Lemma stringToZapLevel_not_trimmed_witness :
  padding " " = true /\ padding " " = true /\
  casingOfLevel "WARN" = Some WarnLevel /\
  @stringToZapLevel asciiRuntime (" " +:+ "WARN" +:+ " ") = InfoLevel.
Proof.
  do 3 (split; [reflexivity|]).
  apply (@stringToZapLevel_not_trimmed asciiRuntime " " "WARN" " " WarnLevel);
    reflexivity.
Defined.

(** C5 with an engine that rejects the configuration: the logger returned
    is allocated and is the no-op logger. *)
Lemma NewLogger_build_failure_fallback_witness :
  @Build failingRuntime (@resolveConfig failingRuntime false "warn") =
    inr "open sink: permission denied" /\
  exists a w',
    @NewLogger failingRuntime false "warn" (initWorld warnEnv) =
      Returns (Addr a, w') /\
    deref w' (Addr a) = Some (zap.Sugar zap.NewNop).
Proof.
  split; [reflexivity|].
  destruct (@NewLogger_build_failure_fallback failingRuntime false "warn"
              (initWorld warnEnv)) as (a & s & w' & Hn & Hs & _ & Hf & _).
  destruct (Hf _ eq_refl) as [-> _]. by exists a, w'.
Defined.

(** C6 on the background context before any call, and on a context that
    holds a string under [loggerKey]. *)
Lemma FromContext_fallback_witness :
  Value emptyCtx loggerKey = Returns AnyNil /\
  (forall p, AnyNil <> AnySugaredLogger p) /\
  @FromContext asciiRuntime (Some emptyCtx) (initWorld warnEnv) =
    @DefaultLogger asciiRuntime (initWorld warnEnv) /\
  @FromContext asciiRuntime
      (Some (valueCtx emptyCtx loggerKey (AnyStr builtinString "logger")))
      warnWorld =
    @DefaultLogger asciiRuntime warnWorld.
Proof.
  split; [done|]. split; [done|]. split.
  - apply (@FromContext_fallback asciiRuntime emptyCtx (initWorld warnEnv)
             AnyNil); done.
  - apply (@FromContext_fallback asciiRuntime
             (valueCtx emptyCtx loggerKey (AnyStr builtinString "logger"))
             warnWorld (AnyStr builtinString "logger")); done.
Defined.

(** C7 as first stated fails: with LOG_MODE a padded casing of develop and
    an engine that rejects the configuration, the logger returned is the
    no-op logger, which is not a development logger. *)
Lemma NewLoggerFromEnv_develop_engine_fails :
  @ToLower failingRuntime (@TrimSpace failingRuntime " Develop ") =
    "develop" /\
  @NewLoggerFromEnv failingRuntime
      (initWorld {[ "LOG_MODE" := " Develop " ]}) =
    Returns (Addr 0,
             allocated (zap.Sugar zap.NewNop)
               (initWorld {[ "LOG_MODE" := " Develop " ]})) /\
  deref (allocated (zap.Sugar zap.NewNop)
           (initWorld {[ "LOG_MODE" := " Develop " ]})) (Addr 0) =
    Some (zap.Sugar zap.NewNop) /\
  zap.development (zap.base (zap.Sugar zap.NewNop)) = false /\
  zap.core (zap.base (zap.Sugar zap.NewNop)) = zap.nopCore.
Proof. by vm_compute. Qed.

(** C7 (amended) with LOG_MODE set to a padded casing of develop and an
    engine that accepts the configuration: the logger returned is a
    development logger at info level. *)
Lemma NewLoggerFromEnv_mode_logger_witness :
  @ToLower asciiRuntime (@TrimSpace asciiRuntime " Develop ") = "develop" /\
  @buildError asciiRuntime (@resolveConfig asciiRuntime true "") = None /\
  exists a s w',
    @NewLoggerFromEnv asciiRuntime
        (initWorld {[ "LOG_MODE" := " Develop " ]}) = Returns (Addr a, w') /\
    deref w' (Addr a) = Some s /\
    zap.development (zap.base s) = true /\
    zap.core (zap.base s) = zap.ioCore "console" InfoLevel.
Proof.
  do 2 (split; [reflexivity|]).
  destruct (@NewLoggerFromEnv_mode_logger asciiRuntime
              (initWorld {[ "LOG_MODE" := " Develop " ]}))
    as (a & s & w' & Hn & Hs & Hdev & _).
  exists a, s, w'. split; [exact Hn|]. split; [exact Hs|].
  exact (proj1 (proj2 (Hdev eq_refl)) eq_refl).
Defined.

(** C8 on the background context and the key of a plain string. *)
Lemma WithLogger_nil_context_witness :
  AnyStr builtinString "logger" <> loggerKey /\
  Value (valueCtx emptyCtx loggerKey (AnySugaredLogger (Addr 0)))
    (AnyStr builtinString "logger") = Returns AnyNil.
Proof.
  split; [done|].
  apply (proj2 (proj2 (WithLogger_nil_context (Addr 0)) emptyCtx)
           (AnyStr builtinString "logger")).
  done.
Defined.

(** C9 with the plain string "logger" as the other key. *)
Lemma loggerKey_non_interference_witness :
  AnyStr builtinString "logger" <> loggerKey /\
  @FromContext asciiRuntime
      (Some (valueCtx
               (valueCtx emptyCtx loggerKey (AnySugaredLogger (Addr 0)))
               (AnyStr builtinString "logger") (AnyInt 7)))
      warnWorld =
    Returns (Addr 0, warnWorld).
Proof.
  split; [done|].
  apply (proj1 (proj2
    (@loggerKey_non_interference asciiRuntime emptyCtx
       (AnyStr builtinString "logger") (AnyInt 7) warnWorld
       ltac:(done))) (Addr 0)
    (Some (valueCtx emptyCtx loggerKey (AnySugaredLogger (Addr 0)))));
    reflexivity.
Defined.

(** C10 in the world after the first [DefaultLogger] call. *)
Lemma FromContext_WithLogger_nil_witness :
  @reaches asciiRuntime warnEnv [CallDefaultLogger] warnWorld /\
  (ctx' ← lift (WithLogger (Some emptyCtx) NilPtr);
   @FromContext asciiRuntime ctx') warnWorld = Returns (NilPtr, warnWorld) /\
  deref warnWorld NilPtr = None.
Proof.
  split; [exact warnWorld_reached|].
  destruct (@FromContext_WithLogger_nil asciiRuntime emptyCtx warnEnv
              [CallDefaultLogger] warnWorld warnWorld_reached)
    as (Hf & Hn & _).
  by split.
Defined.

(** ** Instances of the further properties *)

(** X1 on two casings of a word that names no level. *)
Lemma stringToZapLevel_eqFold_witness :
  Bytes.all Bytes.isASCIIByte "Verbose" = true /\
  Bytes.all Bytes.isASCIIByte "VERBOSE" = true /\
  eqFold "Verbose" "VERBOSE" = true /\
  @stringToZapLevel asciiRuntime "Verbose" =
    @stringToZapLevel asciiRuntime "VERBOSE".
Proof.
  do 3 (split; [reflexivity|]).
  apply (@stringToZapLevel_eqFold asciiRuntime "Verbose" "VERBOSE");
    reflexivity.
Defined.

(** X2 on a word that only starts with develop. *)
Lemma developMode_ascii_exact_witness :
  Bytes.all Bytes.isASCIIByte "development" = true /\
  (@developMode asciiRuntime "development" = true <->
   exists l body r,
     "development" = l +:+ body +:+ r /\ padding l = true /\
     padding r = true /\ casingOf "develop" body = true).
Proof.
  split; [reflexivity|].
  exact (@developMode_ascii_exact asciiRuntime "development" eq_refl).
Defined.

(** X3 in development mode with a string that names no level. *)
Lemma NewLogger_level_gate_witness :
  @buildError asciiRuntime (@resolveConfig asciiRuntime true "bogus") = None /\
  exists a s w',
    @NewLogger asciiRuntime true "bogus" (initWorld warnEnv) =
      Returns (Addr a, w') /\
    deref w' (Addr a) = Some s /\
    zap.Emits s DebugLevel = false /\ zap.Emits s InfoLevel = true.
Proof.
  split; [reflexivity|].
  destruct (@NewLogger_level_gate asciiRuntime true "bogus"
              (initWorld warnEnv) eq_refl)
    as (a & s & w' & Hn & Hs & _ & _ & Hinfo).
  exists a, s, w'. split; [exact Hn|]. split; [exact Hs|].
  exact (Hinfo eq_refl).
Defined.

(** X4 in a process started with an empty environment. *)
Lemma NewLoggerFromEnv_unset_witness :
  default "" (environ (initWorld ∅) !! "LOG_MODE") = "" /\
  default "" (environ (initWorld ∅) !! "LOG_LEVEL") = "" /\
  @NewLoggerFromEnv asciiRuntime (initWorld ∅) =
    @NewLogger asciiRuntime false "" (initWorld ∅).
Proof.
  do 2 (split; [reflexivity|]).
  exact (proj1 (@NewLoggerFromEnv_unset asciiRuntime (initWorld ∅)
                  eq_refl eq_refl)).
Defined.

(** X5 in the world after the first [DefaultLogger] call. *)
Lemma NewLogger_never_default_witness :
  @reaches asciiRuntime warnEnv [CallDefaultLogger] warnWorld /\
  exists a w',
    @NewLogger asciiRuntime true "debug" warnWorld = Returns (Addr a, w') /\
    defaultLogger warnWorld <> Addr a.
Proof.
  split; [exact warnWorld_reached|].
  destruct (@NewLogger_never_default asciiRuntime warnEnv [CallDefaultLogger]
              warnWorld true "debug" warnWorld_reached)
    as (a & w' & Hn & _ & Hne & _).
  by exists a, w'.
Defined.

(** X6 on a cancel context over a value under the plain string "logger"
    over the context with the logger. *)
Lemma FromContext_derived_witness :
  derived (valueCtx emptyCtx loggerKey (AnySugaredLogger (Addr 0)))
    (cancelCtx
       (valueCtx (valueCtx emptyCtx loggerKey (AnySugaredLogger (Addr 0)))
          (AnyStr builtinString "logger") (AnyInt 7))) /\
  @FromContext asciiRuntime
      (Some (cancelCtx
         (valueCtx (valueCtx emptyCtx loggerKey (AnySugaredLogger (Addr 0)))
            (AnyStr builtinString "logger") (AnyInt 7))))
      (initWorld warnEnv) =
    Returns (Addr 0, initWorld warnEnv).
Proof.
  assert (Hd : derived
    (valueCtx emptyCtx loggerKey (AnySugaredLogger (Addr 0)))
    (cancelCtx
       (valueCtx (valueCtx emptyCtx loggerKey (AnySugaredLogger (Addr 0)))
          (AnyStr builtinString "logger") (AnyInt 7)))).
  { apply derived_cancel, derived_value; [apply derived_refl|done]. }
  split; [exact Hd|].
  exact (proj2 (@FromContext_derived asciiRuntime _ _ (initWorld warnEnv) Hd)
           emptyCtx (Addr 0) eq_refl).
Defined.

(** X7 across a constructor call made after the first [DefaultLogger]
    call. *)
Lemma loggers_persist_witness :
  @later asciiRuntime warnWorld
    (allocated (zap.Sugar (@loggerFor asciiRuntime true "debug")) warnWorld) /\
  heap (allocated (zap.Sugar (@loggerFor asciiRuntime true "debug"))
          warnWorld) !! 0 = Some warnLogger.
Proof.
  assert (Hl : @later asciiRuntime warnWorld
    (allocated (zap.Sugar (@loggerFor asciiRuntime true "debug")) warnWorld)).
  { apply (@later_step asciiRuntime warnWorld warnWorld
             (CallNewLogger true "debug") (Addr 1)); [constructor|done]. }
  split; [exact Hl|].
  exact (proj1 (@loggers_persist asciiRuntime _ _ Hl) 0 warnLogger eq_refl).
Defined.

(** X8 at process start with the engine that rejects every
    configuration. *)
Lemma DefaultLogger_nop_when_engine_fails_witness :
  (forall c, @buildError failingRuntime c <> None) /\
  @reaches failingRuntime warnEnv [] (initWorld warnEnv) /\
  exists a w1,
    @DefaultLogger failingRuntime (initWorld warnEnv) =
      Returns (Addr a, w1) /\
    deref w1 (Addr a) = Some (zap.Sugar zap.NewNop).
Proof.
  assert (Hf : forall c, @buildError failingRuntime c <> None) by done.
  split; [exact Hf|]. split; [constructor|].
  destruct (@DefaultLogger_nop_when_engine_fails failingRuntime warnEnv []
              (initWorld warnEnv) Hf (@reaches_init failingRuntime warnEnv))
    as (a & w1 & Hd & Hs & _).
  by exists a, w1.
Defined.

(** X9 on the background context at process start. *)
Lemma FromContext_fallback_singleton_witness :
  @reaches asciiRuntime warnEnv [] (initWorld warnEnv) /\
  Value emptyCtx loggerKey = Returns AnyNil /\
  (forall p, AnyNil <> AnySugaredLogger p) /\
  exists a w1,
    @FromContext asciiRuntime (Some emptyCtx) (initWorld warnEnv) =
      Returns (Addr a, w1) /\
    @DefaultLogger asciiRuntime w1 = Returns (Addr a, w1).
Proof.
  assert (Hv : forall p, AnyNil <> AnySugaredLogger p) by done.
  split; [constructor|]. split; [reflexivity|]. split; [exact Hv|].
  destruct (@FromContext_fallback_singleton asciiRuntime warnEnv []
              (initWorld warnEnv) emptyCtx AnyNil
              (@reaches_init asciiRuntime warnEnv) eq_refl Hv)
    as (a & s & w1 & Hf & _ & Hlater).
  exists a, w1. split; [exact Hf|].
  exact (proj1 (proj2 (Hlater w1 (@later_refl asciiRuntime w1)))).
Defined.

(** X10 at the start of the process of the scenario, LOG_LEVEL being
    WARN. *)
Lemma DefaultLogger_level_fixed_witness :
  defaultLoggerOnce (initWorld warnEnv) = false /\
  @buildError asciiRuntime
    (@resolveConfig asciiRuntime (@developMode asciiRuntime "") "WARN") =
    None /\
  exists a s w1,
    @DefaultLogger asciiRuntime (initWorld warnEnv) = Returns (Addr a, w1) /\
    deref w1 (Addr a) = Some s /\
    zap.Emits s InfoLevel = false /\ zap.Emits s WarnLevel = true.
Proof.
  do 2 (split; [reflexivity|]).
  destruct (@DefaultLogger_level_fixed asciiRuntime (initWorld warnEnv)
              eq_refl eq_refl)
    as (a & s & w1 & Hd & Hs & Hgate & _).
  exists a, s, w1. split; [exact Hd|]. split; [exact Hs|].
  split; [exact (Hgate InfoLevel)|exact (Hgate WarnLevel)].
Defined.

(** X12 on a context that holds a nil pointer, where [FromContext]
    panics, and on a cancel context over the background context, where
    it returns. *)
Lemma FromContext_panics_iff_witness :
  Value nilPointerCtx loggerKey =
    Panics "invalid memory address or nil pointer dereference" /\
  (exists msg,
     @FromContext asciiRuntime (Some nilPointerCtx) warnWorld = Panics msg) /\
  standard (cancelCtx emptyCtx) = true /\
  exists p w',
    @FromContext asciiRuntime (Some (cancelCtx emptyCtx)) warnWorld =
      Returns (p, w').
Proof.
  split; [reflexivity|].
  pose proof (@FromContext_panics_iff asciiRuntime (Some nilPointerCtx)
                warnWorld) as [Hiff _].
  pose proof (@FromContext_panics_iff asciiRuntime
                (Some (cancelCtx emptyCtx)) warnWorld) as [_ Hstd].
  split.
  - apply Hiff. right. by eexists _, _.
  - split; [reflexivity|]. by apply (Hstd (cancelCtx emptyCtx)).
Defined.
